(** * The task store of the console to-do list manager (todo.py)

    A shallow embedding of class [TodoApp]: the task records, their
    persistence as a JSON array in a text file, and the operations
    [add_task], [remove_task], [mark_completed], [clear_completed] and
    [show_stats], followed by the properties of the store.

    Conventions of the model.
    - A Python [str] is a [string]: a sequence of characters with code
      points 0..255.  The backing file is modelled as the text that
      [open(..., encoding='utf-8')] reads and writes.
    - A Python [int] is a [Z].  The interpreter refuses to convert
      between an [int] and a text of more than 4300 digits
      ([max_str_digits], its default setting).  The model has this
      limit where the [json] module converts, in [save_tasks] and
      [load_tasks]; it does not have it in [int(task_id)] ([py_int])
      nor where a listing formats an id ([int_repr]).
    - [print] is modelled by the list of messages a call emits, one
      constructor per [print] statement of the class.  What a method
      prints itself is the [out] of its outcome; the error that the
      [save_tasks] call inside it prints when the save fails is
      [save_tasks_out], and [console] puts the two in order.
    - [datetime.now().strftime(...)] is the argument [now] of the
      operations that read the clock.
    - [save_tasks] fails where [json.dump] raises, and what was
      written up to there stays in the file.  The operating system
      refusing to open or write the file is not modelled.
    - The decoder is followed through [nesting_bound] levels of nested
      lists and dicts; deeper down the interpreter's recursion limit
      comes into play, which the model does not follow. *)

From Stdlib Require Import ZArith NArith List String Ascii Bool Lia QArith.
From Stdlib Require Import Permutation.
From Stdlib Require DecimalString DecimalFacts DecimalPos DecimalZ.
Import ListNotations.

Local Open Scope string_scope.
Local Open Scope Z_scope.

(** ** Characters and the [str] methods the class uses *)

Definition code (c : ascii) : N := N_of_ascii c.

Definition chr (n : N) : ascii := ascii_of_N n.

Definition dquote : ascii := chr 34.
Definition backslash : ascii := chr 92.

(** [str.isspace] on one character (the code points below 256 that
    Python classifies as whitespace). *)
Definition isspace (c : ascii) : bool :=
  let n := code c in
  ((9 <=? n) && (n <=? 13) || (28 <=? n) && (n <=? 32)
   || (n =? 133) || (n =? 160))%N.

Fixpoint lstrip (s : string) : string :=
  match s with
  | EmptyString => EmptyString
  | String c r => if isspace c then lstrip r else s
  end.

Fixpoint rstrip (s : string) : string :=
  match s with
  | EmptyString => EmptyString
  | String c r =>
      match rstrip r with
      | EmptyString => if isspace c then EmptyString else String c EmptyString
      | r' => String c r'
      end
  end.

(** [s.strip()] *)
Definition strip (s : string) : string := rstrip (lstrip s).

(** Truth value of a [str]: non-empty. *)
Definition nonempty (s : string) : bool :=
  match s with EmptyString => false | _ => true end.

Definition is_digit (c : ascii) : bool :=
  let n := code c in ((48 <=? n) && (n <=? 57))%N.

Definition digit_val (c : ascii) : Z := Z.of_N (code c) - 48.

(** Whitespace that [int(str)] skips around the literal. *)
Definition int_space (c : ascii) : bool :=
  let n := code c in
  ((9 <=? n) && (n <=? 13) || (n =? 32) || (n =? 133) || (n =? 160))%N.

Fixpoint drop_int_space (s : string) : string :=
  match s with
  | EmptyString => EmptyString
  | String c r => if int_space c then drop_int_space r else s
  end.

(** Digits of a decimal literal after its first digit; a single
    underscore may separate two digits. *)
Fixpoint int_digits (acc : Z) (s : string) : option (Z * string) :=
  match s with
  | EmptyString => Some (acc, EmptyString)
  | String c r =>
      if is_digit c then int_digits (10 * acc + digit_val c) r
      else if (c =? "_")%char then
        match r with
        | String d r' =>
            if is_digit d then int_digits (10 * acc + digit_val d) r'
            else None
        | EmptyString => None
        end
      else Some (acc, s)
  end.

Definition int_unsigned (s : string) : option Z :=
  match s with
  | String d r =>
      if is_digit d then
        match int_digits (digit_val d) r with
        | Some (v, rest) =>
            match drop_int_space rest with
            | EmptyString => Some v
            | _ => None
            end
        | None => None
        end
      else None
  | EmptyString => None
  end.

(** [int(s)] for a [str] argument, base 10: [None] is [ValueError]. *)
Definition py_int (s : string) : option Z :=
  match drop_int_space s with
  | String c r =>
      if (c =? "-")%char then option_map Z.opp (int_unsigned r)
      else if (c =? "+")%char then int_unsigned r
      else int_unsigned (String c r)
  | EmptyString => None
  end.

(** ** Python values that the [json] module reads and writes *)

#[warnings="-register-all"]
Inductive pyval : Type :=
  | VNone
  | VBool (b : bool)
  | VInt (z : Z)
  | VStr (s : string)
  | VList (items : list pyval)
  | VDict (pairs : list (string * pyval)).

(** [d[k] = v] on a dict kept in insertion order. *)
Fixpoint dict_set {V : Type} (d : list (string * V)) (k : string) (v : V)
  : list (string * V) :=
  match d with
  | [] => [(k, v)]
  | (k', v') :: d' =>
      if (k' =? k)%string then (k', v) :: d' else (k', v') :: dict_set d' k v
  end.

(** ** [json.dump(obj, file, indent=2, ensure_ascii=False)]

    The encoder and the decoder of the standard library's [json]
    module, which the class calls, as far as values of [pyval] go. *)

Definition hex_digit (n : N) : ascii :=
  if (n <? 10)%N then chr (48 + n) else chr (87 + n).

(** One character of a string literal: the escapes of the encoder's
    table, [\u00XX] for the other control characters. *)
Definition escape_char (c : ascii) : string :=
  let n := code c in
  if (c =? dquote)%char then String backslash (String dquote EmptyString)
  else if (c =? backslash)%char then String backslash (String backslash EmptyString)
  else if (n =? 10)%N then String backslash "n"
  else if (n =? 13)%N then String backslash "r"
  else if (n =? 9)%N then String backslash "t"
  else if (n =? 8)%N then String backslash "b"
  else if (n =? 12)%N then String backslash "f"
  else if (n <? 32)%N then
    String backslash
      (String "u" (String "0" (String "0"
        (String (hex_digit (n / 16)) (String (hex_digit (n mod 16)) EmptyString)))))
  else String c EmptyString.

Fixpoint escape (s : string) : string :=
  match s with
  | EmptyString => EmptyString
  | String c r => escape_char c ++ escape r
  end.

Definition encode_basestring (s : string) : string :=
  String dquote (escape s ++ String dquote EmptyString).

(** [int.__repr__] *)
Definition int_repr (z : Z) : string :=
  DecimalString.NilZero.string_of_int (Z.to_int z).

Definition newline : ascii := chr 10.

Fixpoint spaces (n : nat) : string :=
  match n with
  | O => EmptyString
  | S k => String " " (spaces k)
  end.

(** A line break followed by the indentation of nesting level [lvl]. *)
Definition newline_indent (lvl : nat) : string :=
  String newline (spaces (2 * lvl)).

Fixpoint join (sep : string) (l : list string) : string :=
  match l with
  | [] => EmptyString
  | [x] => x
  | x :: l' => x ++ sep ++ join sep l'
  end.

Fixpoint iterencode (lvl : nat) (o : pyval) {struct o} : string :=
  match o with
  | VNone => "null"
  | VBool true => "true"
  | VBool false => "false"
  | VInt z => int_repr z
  | VStr s => encode_basestring s
  | VList [] => "[]"
  | VList items =>
      "[" ++ newline_indent (S lvl)
          ++ join ("," ++ newline_indent (S lvl))
                  (map (iterencode (S lvl)) items)
          ++ newline_indent lvl ++ "]"
  | VDict [] => "{}"
  | VDict pairs =>
      "{" ++ newline_indent (S lvl)
          ++ join ("," ++ newline_indent (S lvl))
                  (map (fun kv => encode_basestring (fst kv) ++ ": "
                                  ++ iterencode (S lvl) (snd kv)) pairs)
          ++ newline_indent lvl ++ "}"
  end.

Definition json_dumps (o : pyval) : string := iterencode 0 o.

(** The interpreter's limit on the digits of a conversion between
    [int] and [str] ([sys.int_info.default_max_str_digits]): beyond it
    the conversion raises ValueError. *)
Definition max_str_digits : nat := 4300.

(** The number of decimal digits of [z], its sign left out. *)
Definition digit_count (z : Z) : nat := String.length (int_repr (Z.abs z)).

Definition int_fits (z : Z) : bool := (digit_count z <=? max_str_digits)%nat.

Definition is_container (o : pyval) : bool :=
  match o with
  | VList _ | VDict _ => true
  | _ => false
  end.

(** [json.dump] writes the chunks that the encoder yields, one by one,
    so that when the encoder raises the chunks before are in the file.
    [write_items] and [write_pairs] are the loops over the items of a
    non-empty list and of a non-empty dict: the text written, and
    whether the loop came to its end.  In a list the opening bracket or
    the separator is yielded together with an item that is not a list
    or a dict; in a dict the separator, the key and the colon are
    yielded before the value. *)
Section chunks.
Variable w : pyval -> string * bool.
Variables close sep : string.

Fixpoint write_items (buf : string) (l : list pyval) : string * bool :=
  match l with
  | [] => (close, true)
  | x :: l' =>
      let (tx, ok) := w x in
      if ok then
        let (rest, ok') := write_items sep l' in (buf ++ tx ++ rest, ok')
      else ((if is_container x then buf ++ tx else EmptyString), false)
  end.

Fixpoint write_pairs (buf : string) (l : list (string * pyval)) : string * bool :=
  match l with
  | [] => (close, true)
  | kv :: l' =>
      let (tx, ok) := w (snd kv) in
      let head := buf ++ encode_basestring (fst kv) ++ ": " ++ tx in
      if ok then
        let (rest, ok') := write_pairs sep l' in (head ++ rest, ok')
      else (head, false)
  end.
End chunks.

(** What [json.dump(o, file, indent=2, ensure_ascii=False)] has written
    when it returns or raises, and whether it returned.  The one value
    of [pyval] on which the encoder raises is an [int] beyond the digit
    limit. *)
Fixpoint written (lvl : nat) (o : pyval) {struct o} : string * bool :=
  match o with
  | VInt z => if int_fits z then (int_repr z, true) else (EmptyString, false)
  | VList (x :: xs) =>
      write_items (written (S lvl)) (newline_indent lvl ++ "]")
                  ("," ++ newline_indent (S lvl))
                  ("[" ++ newline_indent (S lvl)) (x :: xs)
  | VDict (kv :: kvs) =>
      write_pairs (written (S lvl)) (newline_indent lvl ++ "}")
                  ("," ++ newline_indent (S lvl))
                  ("{" ++ newline_indent (S lvl)) (kv :: kvs)
  | _ => (iterencode lvl o, true)
  end.

Definition json_dump (o : pyval) : string * bool := written 0 o.


(** ** [json.loads(text)] *)

(** Outcome of decoding: a result with the text left over; a
    [JSONDecodeError]; the [ValueError] of an integer literal beyond
    the digit limit; [TooDeep] when lists and dicts are nested deeper
    than the model follows the decoder; [OutOfFuel] when the recursion
    fuel is used up, which [json_loads] never is ([json_loads_fueled]
    below). *)
Inductive parse (A : Type) : Type :=
  | Parsed (a : A)
  | JSONDecodeError
  | ValueError
  | TooDeep
  | OutOfFuel.

Arguments Parsed {A} a.
Arguments JSONDecodeError {A}.
Arguments ValueError {A}.
Arguments TooDeep {A}.
Arguments OutOfFuel {A}.

Definition parse_bind {A B : Type} (m : parse A) (k : A -> parse B) : parse B :=
  match m with
  | Parsed a => k a
  | JSONDecodeError => JSONDecodeError
  | ValueError => ValueError
  | TooDeep => TooDeep
  | OutOfFuel => OutOfFuel
  end.

Notation "x <- m ;; k" := (parse_bind m (fun x => k))
  (at level 61, m at next level, right associativity).
Notation "' p <- m ;; k" := (parse_bind m (fun x => let 'p := x in k))
  (at level 61, p pattern, m at next level, right associativity).

(** What the decoder returns: the values of [pyval], and [DOther] for
    what lies outside them, that is a float, a [str] with a character
    above code point 255 and a dict with such a key.  The decoder reads
    on past such a value. *)
#[warnings="-register-all"]
Inductive decoded : Type :=
  | DNone
  | DBool (b : bool)
  | DInt (z : Z)
  | DStr (s : string)
  | DList (items : list decoded)
  | DDict (pairs : list (string * decoded))
  | DOther.

(** A [str] the scanner has read is [None] when it lies outside
    [string]. *)
Definition decoded_str (str : option string) : decoded :=
  match str with
  | Some s => DStr s
  | None => DOther
  end.

(** The pairs of a dict, [None] once a key lies outside [string]. *)
Definition add_pair (key : option string) (v : decoded)
    (kvs : option (list (string * decoded))) : option (list (string * decoded)) :=
  match key, kvs with
  | Some k, Some l => Some ((k, v) :: l)
  | _, _ => None
  end.

(** The decoder's whitespace: space, tab, line feed, carriage return. *)
Definition json_ws (c : ascii) : bool :=
  let n := code c in ((n =? 32) || (n =? 9) || (n =? 10) || (n =? 13))%N.

Fixpoint skip_ws (s : string) : string :=
  match s with
  | EmptyString => EmptyString
  | String c r => if json_ws c then skip_ws r else s
  end.

Definition hex_val (c : ascii) : option N :=
  let n := code c in
  if is_digit c then Some (n - 48)%N
  else if ((97 <=? n) && (n <=? 102))%N then Some (n - 87)%N
  else if ((65 <=? n) && (n <=? 70))%N then Some (n - 55)%N
  else None.

(** The character a one-letter escape stands for. *)
Definition unescape (e : ascii) : option ascii :=
  if (e =? dquote)%char then Some dquote
  else if (e =? backslash)%char then Some backslash
  else if (e =? "/")%char then Some "/"%char
  else if (e =? "b")%char then Some (chr 8)
  else if (e =? "f")%char then Some (chr 12)
  else if (e =? "n")%char then Some (chr 10)
  else if (e =? "r")%char then Some (chr 13)
  else if (e =? "t")%char then Some (chr 9)
  else None.

(** [scanstring(s, end, strict=True)]: the text after an opening quote,
    up to and including the closing quote.  A [\uXXXX] escape above
    code point 255 takes the string out of [string]. *)
Fixpoint scanstring (s : string) : parse (option string * string) :=
  match s with
  | EmptyString => JSONDecodeError
  | String c r =>
      if (c =? dquote)%char then Parsed (Some EmptyString, r)
      else if (c =? backslash)%char then
        match r with
        | EmptyString => JSONDecodeError
        | String e r1 =>
            if (e =? "u")%char then
              match r1 with
              | String h1 (String h2 (String h3 (String h4 r2))) =>
                  match hex_val h1, hex_val h2, hex_val h3, hex_val h4 with
                  | Some a, Some b, Some c, Some d =>
                      let n := (((a * 16 + b) * 16 + c) * 16 + d)%N in
                      '(str, rest) <- scanstring r2 ;;
                      Parsed ((if (n <? 256)%N
                               then option_map (String (chr n)) str
                               else None), rest)
                  | _, _, _, _ => JSONDecodeError
                  end
              | _ => JSONDecodeError
              end
            else
              match unescape e with
              | Some c' =>
                  '(str, rest) <- scanstring r1 ;;
                  Parsed (option_map (String c') str, rest)
              | None => JSONDecodeError
              end
        end
      else if (code c <? 32)%N then JSONDecodeError
      else
        '(str, rest) <- scanstring r ;;
        Parsed (option_map (String c) str, rest)
  end.

Fixpoint span_digits (s : string) : string * string :=
  match s with
  | EmptyString => (EmptyString, EmptyString)
  | String c r =>
      if is_digit c then
        let (d, rest) := span_digits r in (String c d, rest)
      else (EmptyString, s)
  end.

(** The integer part of a number: a lone zero, or a non-zero digit
    followed by digits. *)
Definition match_integer (s : string) : option (string * string) :=
  match s with
  | EmptyString => None
  | String c r =>
      if (c =? "0")%char then Some (String c EmptyString, r)
      else if is_digit c then
        let (d, rest) := span_digits r in Some (String c d, rest)
      else None
  end.

Definition has_fraction (s : string) : bool :=
  match s with
  | String p (String d _) => (p =? ".")%char && is_digit d
  | _ => false
  end.

Definition has_exponent (s : string) : bool :=
  match s with
  | String e (String c r) =>
      ((e =? "e")%char || (e =? "E")%char) &&
      (is_digit c ||
       ((c =? "+")%char || (c =? "-")%char) &&
       match r with String d _ => is_digit d | EmptyString => false end)
  | _ => false
  end.

(** The text after the fraction at the head of [s], if there is one;
    likewise for the exponent. *)
Definition skip_fraction (s : string) : string :=
  match s with
  | String _ r => if has_fraction s then snd (span_digits r) else s
  | EmptyString => s
  end.

Definition skip_exponent (s : string) : string :=
  match s with
  | String _ (String c r) =>
      if has_exponent s then snd (span_digits r) else s
  | _ => s
  end.

Fixpoint digits_value (acc : Z) (s : string) : Z :=
  match s with
  | EmptyString => acc
  | String c r => digits_value (10 * acc + digit_val c) r
  end.

(** The scanner's number rule.  A literal with a fraction or an
    exponent is a float; the others go through [int], which refuses
    more than [max_str_digits] digits. *)
Definition match_number (s : string) : parse (decoded * string) :=
  let (neg, body) :=
    match s with
    | String c r => if (c =? "-")%char then (true, r) else (false, s)
    | EmptyString => (false, s)
    end in
  match match_integer body with
  | None => JSONDecodeError
  | Some (digits, rest) =>
      if has_fraction rest || has_exponent (skip_fraction rest) then
        Parsed (DOther, skip_exponent (skip_fraction rest))
      else if (String.length digits <=? max_str_digits)%nat then
        let n := digits_value 0 digits in
        Parsed (DInt (if neg then - n else n), rest)
      else ValueError
  end.

(** [s.startswith(p)] *)
Fixpoint startswith (p s : string) : bool :=
  match p with
  | EmptyString => true
  | String a p' =>
      match s with
      | String b s' => (a =? b)%char && startswith p' s'
      | EmptyString => false
      end
  end.

Fixpoint drop (n : nat) (s : string) : string :=
  match n, s with
  | S k, String _ r => drop k r
  | _, _ => s
  end.

(** [dict(pairs)]: a repeated key keeps its first position and its
    last value. *)
Definition dict_of_pairs (pairs : list (string * decoded))
  : list (string * decoded) :=
  fold_left (fun d kv => dict_set d (fst kv) (snd kv)) pairs [].

Definition decoded_dict (pairs : option (list (string * decoded))) : decoded :=
  match pairs with
  | Some l => DDict (dict_of_pairs l)
  | None => DOther
  end.

(** [scan_once]: one JSON term at the head of [s].  [parse_array] and
    [parse_object] read the items after an opening bracket or brace
    that is not immediately closed.  [depth] is the number of lists and
    dicts that may still be opened inside one another. *)
Fixpoint scan_once (fuel depth : nat) (s : string) {struct fuel}
  : parse (decoded * string) :=
  match fuel with
  | O => OutOfFuel
  | S f =>
      match s with
      | EmptyString => JSONDecodeError
      | String c r =>
          if (c =? dquote)%char then
            '(str, rest) <- scanstring r ;; Parsed (decoded_str str, rest)
          else if (c =? "{")%char then
            match depth with
            | O => TooDeep
            | S d =>
                match skip_ws r with
                | String c' r' =>
                    if (c' =? "}")%char then Parsed (DDict [], r')
                    else
                      '(pairs, rest) <- parse_object f d (String c' r') ;;
                      Parsed (decoded_dict pairs, rest)
                | EmptyString => JSONDecodeError
                end
            end
          else if (c =? "[")%char then
            match depth with
            | O => TooDeep
            | S d =>
                match skip_ws r with
                | String c' r' =>
                    if (c' =? "]")%char then Parsed (DList [], r')
                    else
                      '(items, rest) <- parse_array f d (String c' r') ;;
                      Parsed (DList items, rest)
                | EmptyString => JSONDecodeError
                end
            end
          else if startswith "null" s then Parsed (DNone, drop 4 s)
          else if startswith "true" s then Parsed (DBool true, drop 4 s)
          else if startswith "false" s then Parsed (DBool false, drop 5 s)
          else if startswith "NaN" s then Parsed (DOther, drop 3 s)
          else if startswith "Infinity" s then Parsed (DOther, drop 8 s)
          else if startswith "-Infinity" s then Parsed (DOther, drop 9 s)
          else match_number s
      end
  end

with parse_array (fuel depth : nat) (s : string) {struct fuel}
  : parse (list decoded * string) :=
  match fuel with
  | O => OutOfFuel
  | S f =>
      '(v, r) <- scan_once f depth s ;;
      match skip_ws r with
      | String c r' =>
          if (c =? "]")%char then Parsed ([v], r')
          else if (c =? ",")%char then
            '(vs, rest) <- parse_array f depth (skip_ws r') ;;
            Parsed (v :: vs, rest)
          else JSONDecodeError
      | EmptyString => JSONDecodeError
      end
  end

with parse_object (fuel depth : nat) (s : string) {struct fuel}
  : parse (option (list (string * decoded)) * string) :=
  match fuel with
  | O => OutOfFuel
  | S f =>
      match s with
      | EmptyString => JSONDecodeError
      | String q r =>
          if (q =? dquote)%char then
            '(key, r1) <- scanstring r ;;
            match skip_ws r1 with
            | String c r2 =>
                if (c =? ":")%char then
                  '(v, r3) <- scan_once f depth (skip_ws r2) ;;
                  match skip_ws r3 with
                  | String c' r4 =>
                      if (c' =? "}")%char
                      then Parsed (add_pair key v (Some []), r4)
                      else if (c' =? ",")%char then
                        '(kvs, rest) <- parse_object f depth (skip_ws r4) ;;
                        Parsed (add_pair key v kvs, rest)
                      else JSONDecodeError
                  | EmptyString => JSONDecodeError
                  end
                else JSONDecodeError
            | EmptyString => JSONDecodeError
            end
          else JSONDecodeError
      end
  end.

(** The depth down to which the model follows the decoder.  The
    interpreter raises RecursionError when nested lists and dicts take
    it to its recursion limit, which with the default limit of 1000
    frames is some 990 levels down; that error is not caught by
    [load_tasks]. *)
Definition nesting_bound : nat := 900.

(** [JSONDecoder.decode]: one term, surrounded by whitespace only. *)
Definition json_loads (s : string) : parse decoded :=
  '(v, rest) <- scan_once (2 * length s + 1) nesting_bound (skip_ws s) ;;
  match skip_ws rest with
  | EmptyString => Parsed v
  | _ => JSONDecodeError
  end.

(** ** The data model: a task and its dict *)

(** One entry of [self.tasks].  [completed_at] is [None] while the dict
    has no such key. *)
Record task : Type := mkTask {
  id : Z;
  description : string;
  completed : bool;
  created_at : string;
  completed_at : option string
}.

(** The dict of a task, keys in the order the class inserts them. *)
Definition to_py (t : task) : pyval :=
  VDict ([("id", VInt (id t));
          ("description", VStr (description t));
          ("completed", VBool (completed t));
          ("created_at", VStr (created_at t))]
         ++ match completed_at t with
            | Some ts => [("completed_at", VStr ts)]
            | None => []
            end)%list.

(** The task a decoded dict stands for, when it has that shape. *)
Definition of_py (v : decoded) : option task :=
  match v with
  | DDict ((k1, DInt i) :: (k2, DStr d) :: (k3, DBool c) :: (k4, DStr ca) :: more) =>
      if ((k1 =? "id") && (k2 =? "description") && (k3 =? "completed")
          && (k4 =? "created_at"))%string
      then
        match more with
        | [] => Some (mkTask i d c ca None)
        | [(k5, DStr ts)] =>
            if (k5 =? "completed_at")%string
            then Some (mkTask i d c ca (Some ts)) else None
        | _ => None
        end
      else None
  | _ => None
  end.

Fixpoint all_of_py (items : list decoded) : option (list task) :=
  match items with
  | [] => Some []
  | v :: items' =>
      match of_py v, all_of_py items' with
      | Some t, Some ts => Some (t :: ts)
      | _, _ => None
      end
  end.

Definition tasks_to_py (ts : list task) : pyval := VList (map to_py ts).

Definition tasks_of_py (v : decoded) : option (list task) :=
  match v with
  | DList items => all_of_py items
  | _ => None
  end.

(** ** The store *)

(** [self.tasks] together with the content of the file named
    [self.filename] ([None]: no such file). *)
Record TodoApp : Type := mkApp {
  tasks : list task;
  file : option string
}.

(** What the class prints, one constructor per [print] statement. *)
Inductive message : Type :=
  | LoadWarning                       (* Warning: Could not load tasks ... *)
  | SaveError                         (* Error saving tasks: ... *)
  | EmptyDescriptionError             (* Error: Task description cannot be empty! *)
  | TaskAdded (shown : string)        (* Task added successfully: ... *)
  | InvalidIdError                    (* Error: Please enter a valid task ID (number)! *)
  | TaskRemoved (shown : string)      (* Task removed: ... *)
  | NotFoundError (n : Z)             (* Error: No task found with ID n *)
  | TaskCompleted (shown : string)    (* Task marked as completed: ... *)
  | NothingToClear                    (* No completed tasks to clear! *)
  | Cleared (n : nat)                 (* Cleared n completed task(s) *)
  | NoStatistics                      (* Statistics: No tasks available *)
  | Statistics (total done pending : nat) (rate : Q).

(** The result of a method call: its return value, the store after the
    call and what the statements of the method printed.  The one print
    of [save_tasks], which comes before them when the method saves and
    the save fails, is [save_tasks_out] of the store that is saved. *)
Record outcome (A : Type) : Type := mkOutcome {
  ret : A;
  app : TodoApp;
  out : list message
}.

Arguments mkOutcome {A} ret app out.
Arguments ret {A} o.
Arguments app {A} o.
Arguments out {A} o.

(** How [load_tasks] ends.  [Loaded]: [self.tasks] is a list of task
    dicts.  [Untyped]: [json.loads] returned a value that is not a list
    of task dicts; the class keeps it in [self.tasks] as it is and
    prints nothing.  [Raised]: the ValueError
    of an integer beyond the digit limit, which the handler of
    [load_tasks] does not catch.  [Unfollowed]: the content is nested
    deeper than [nesting_bound]. *)
Inductive loaded : Type :=
  | Loaded (a : TodoApp) (printed : list message)
  | Untyped (value : decoded)
  | Raised
  | Unfollowed.

Definition load_tasks (a : TodoApp) : loaded :=
  match file a with
  | Some raw =>
      let content := strip raw in
      if nonempty content then
        match json_loads content with
        | Parsed v =>
            match tasks_of_py v with
            | Some ts => Loaded (mkApp ts (file a)) []
            | None => Untyped v
            end
        | JSONDecodeError => Loaded (mkApp [] (file a)) [LoadWarning]
        | ValueError => Raised
        | TooDeep | OutOfFuel => Unfollowed
        end
      else Loaded (mkApp [] (file a)) []
  | None => Loaded (mkApp [] (file a)) []
  end.

(** [TodoApp(filename)] on a file system where the file has content
    [f]. *)
Definition init (f : option string) : loaded := load_tasks (mkApp [] f).

(** [save_tasks]: the store with the file as [json.dump] left it, and
    what the handler printed. *)
Definition save_tasks (a : TodoApp) : TodoApp :=
  mkApp (tasks a) (Some (fst (json_dump (tasks_to_py (tasks a))))).

Definition save_tasks_out (a : TodoApp) : list message :=
  if snd (json_dump (tasks_to_py (tasks a))) then [] else [SaveError].

Definition add_task (now task_description : string) (a : TodoApp) : outcome bool :=
  if negb (nonempty (strip task_description)) then
    mkOutcome false a [EmptyDescriptionError]
  else
    let t := mkTask (Z.of_nat (List.length (tasks a)) + 1)
                    (strip task_description) false now None in
    mkOutcome true
              (save_tasks (mkApp (tasks a ++ [t])%list (file a)))
              [TaskAdded task_description].

(** The loop of [remove_task]: index and task of the first match. *)
Fixpoint find_task (n : Z) (i : nat) (l : list task) : option (nat * task) :=
  match l with
  | [] => None
  | t :: l' => if id t =? n then Some (i, t) else find_task n (S i) l'
  end.

(** [l.pop(i)]: the element taken out and the list without it; [None]
    is the IndexError of an index out of range. *)
Fixpoint pop (i : nat) (l : list task) : option (task * list task) :=
  match l, i with
  | [], _ => None
  | t :: l', O => Some (t, l')
  | t :: l', S k =>
      match pop k l' with
      | Some (x, r) => Some (x, t :: r)
      | None => None
      end
  end.

(** [remove_task].  The test [if task_to_remove] holds for every task
    found (a task dict is not empty).  The index handed to [pop] comes
    from the loop, so [pop] does not fail ([find_task_pop] below); that
    branch is only there to make the function total. *)
Definition remove_task (task_id : string) (a : TodoApp) : outcome bool :=
  match py_int task_id with
  | None => mkOutcome false a [InvalidIdError]
  | Some n =>
      match find_task n 0 (tasks a) with
      | Some (task_index, _) =>
          match pop task_index (tasks a) with
          | Some (removed_task, rest) =>
              mkOutcome true (save_tasks (mkApp rest (file a)))
                        [TaskRemoved (description removed_task)]
          | None => mkOutcome false a []
          end
      | None => mkOutcome false a [NotFoundError n]
      end
  end.

Definition set_completed (now : string) (t : task) : task :=
  mkTask (id t) (description t) true (created_at t) (Some now).

(** The loop of [mark_completed]: the list with its first match
    updated, and that task. *)
Fixpoint complete_first (now : string) (n : Z) (l : list task)
  : option (list task * task) :=
  match l with
  | [] => None
  | t :: l' =>
      if id t =? n then Some (set_completed now t :: l', set_completed now t)
      else
        match complete_first now n l' with
        | Some (r, u) => Some (t :: r, u)
        | None => None
        end
  end.

Definition mark_completed (now task_id : string) (a : TodoApp) : outcome bool :=
  match py_int task_id with
  | None => mkOutcome false a [InvalidIdError]
  | Some n =>
      match complete_first now n (tasks a) with
      | Some (ts, t) =>
          mkOutcome true (save_tasks (mkApp ts (file a)))
                    [TaskCompleted (description t)]
      | None => mkOutcome false a [NotFoundError n]
      end
  end.

Definition pending (t : task) : bool := negb (completed t).

Definition clear_completed (a : TodoApp) : outcome unit :=
  let completed_count := List.length (filter completed (tasks a)) in
  if (completed_count =? 0)%nat then mkOutcome tt a [NothingToClear]
  else
    mkOutcome tt (save_tasks (mkApp (filter pending (tasks a)) (file a)))
              [Cleared completed_count].

(** The float division [x / y] of two ints, as an exact rational;
    [None] is [ZeroDivisionError]. *)
Definition truediv (x y : Z) : option Q :=
  if y =? 0 then None else Some (inject_Z x / inject_Z y)%Q.

(** [show_stats]: what it prints, or [None] when it raises
    [ZeroDivisionError].  The rate is the exact value of the quotient
    that the class evaluates in floating point. *)
Definition show_stats (a : TodoApp) : option (list message) :=
  match tasks a with
  | [] => Some [NoStatistics]
  | _ =>
      let total := List.length (tasks a) in
      let done := List.length (filter completed (tasks a)) in
      let pending := (total - done)%nat in
      let completion_rate :=
        if (0 <? total)%nat then
          match truediv (Z.of_nat done) (Z.of_nat total) with
          | Some q => Some (Qred (q * 100))
          | None => None
          end
        else Some 0%Q in
      match completion_rate with
      | Some r => Some [Statistics total done pending r]
      | None => None
      end
  end.

(** ** Runs of the store *)

Inductive op : Type :=
  | Add (now task_description : string)
  | Remove (task_id : string)
  | Complete (now task_id : string)
  | ClearCompleted.

Definition exec (o : op) (a : TodoApp) : TodoApp :=
  match o with
  | Add now d => app (add_task now d a)
  | Remove i => app (remove_task i a)
  | Complete now i => app (mark_completed now i a)
  | ClearCompleted => app (clear_completed a)
  end.




Definition run (ops : list op) (a : TodoApp) : TodoApp :=
  fold_left (fun st o => exec o st) ops a.

(** The store of a first run: no file yet. *)
Definition empty_store : TodoApp := mkApp [] None.

Inductive reachable : TodoApp -> Prop :=
  | reach_empty : reachable empty_store
  | reach_step (o : op) (a : TodoApp) : reachable a -> reachable (exec o a).

(** ** Predicates used to state the properties *)

(** A task that is not completed has no completion timestamp. *)
Definition stamp_ok (t : task) : Prop :=
  completed t = false -> completed_at t = None.

(** [t'] is what a call made of the task [t] that stays in the store:
    same identity, and neither the completed flag nor the completion
    timestamp, once set, is taken away. *)
Definition carried (t t' : task) : Prop :=
  id t' = id t /\ description t' = description t /\
  created_at t' = created_at t /\
  (completed t = true -> completed t' = true) /\
  (completed_at t <> None -> completed_at t' <> None).

(** [subseq l' l]: [l'] is [l] with some tasks taken out, the others
    unchanged and in the same order. *)
Inductive subseq : list task -> list task -> Prop :=
  | subseq_nil : subseq [] []
  | subseq_keep (t : task) (l' l : list task) :
      subseq l' l -> subseq (t :: l') (t :: l)
  | subseq_drop (t : task) (l' l : list task) :
      subseq l' l -> subseq l' (t :: l).

(** Text that can follow an integer literal without being read as part
    of the number. *)
Definition int_end (s : string) : bool :=
  match s with
  | EmptyString => true
  | String c _ =>
      negb (is_digit c) && negb (c =? ".")%char
      && negb (c =? "e")%char && negb (c =? "E")%char
  end.

(** Every dict inside the value has distinct keys, as every Python dict
    has. *)
Fixpoint unique_keys (v : pyval) : Prop :=
  match v with
  | VList items => fold_right (fun x acc => unique_keys x /\ acc) True items
  | VDict pairs =>
      NoDup (map fst pairs) /\
      fold_right (fun kv acc => unique_keys (snd kv) /\ acc) True pairs
  | _ => True
  end.

(** The first character of an encoded value: not whitespace and not a
    closing bracket or brace. *)
Definition term_head (s : string) : bool :=
  match s with
  | EmptyString => false
  | String c _ => negb (json_ws c) && negb (c =? "]")%char && negb (c =? "}")%char
  end.

(** [join sep (x :: l)] is [x] followed by [join_tail sep l]. *)
Fixpoint join_tail (sep : string) (l : list string) : string :=
  match l with
  | [] => EmptyString
  | x :: l' => sep ++ x ++ join_tail sep l'
  end.

(** Induction on a value with the hypothesis available for every item
    of a list and every value of a dict. *)
Section pyval_nested_induction.
Variable P : pyval -> Prop.
Hypothesis HNone : P VNone.
Hypothesis HBool : forall b, P (VBool b).
Hypothesis HInt : forall z, P (VInt z).
Hypothesis HStr : forall s, P (VStr s).
Hypothesis HList : forall items, Forall P items -> P (VList items).
Hypothesis HDict :
  forall pairs, Forall (fun kv => P (snd kv)) pairs -> P (VDict pairs).

Fixpoint pyval_nested_ind (v : pyval) : P v :=
  match v with
  | VNone => HNone
  | VBool b => HBool b
  | VInt z => HInt z
  | VStr s => HStr s
  | VList items =>
      HList items
        ((fix all (l : list pyval) : Forall P l :=
            match l with
            | [] => Forall_nil P
            | x :: l' => Forall_cons x (pyval_nested_ind x) (all l')
            end) items)
  | VDict pairs =>
      HDict pairs
        ((fix all (l : list (string * pyval)) : Forall (fun kv => P (snd kv)) l :=
            match l with
            | [] => Forall_nil _
            | kv :: l' =>
                Forall_cons kv
                  (match kv return P (snd kv) with
                   | (k, x) => pyval_nested_ind x
                   end) (all l')
            end) pairs)
  end.
End pyval_nested_induction.

(** Every int inside the value is within the digit limit. *)
Fixpoint dumpable (v : pyval) : bool :=
  match v with
  | VInt z => int_fits z
  | VList items => forallb dumpable items
  | VDict pairs => forallb (fun kv => dumpable (snd kv)) pairs
  | _ => true
  end.

(** How deep lists and dicts are nested inside the value. *)
Fixpoint nesting (v : pyval) : nat :=
  match v with
  | VList items => S (fold_right (fun x m => Nat.max (nesting x) m) O items)
  | VDict pairs => S (fold_right (fun kv m => Nat.max (nesting (snd kv)) m) O pairs)
  | _ => O
  end.

(** A value of [pyval] as the decoder returns it. *)
Fixpoint as_decoded (v : pyval) : decoded :=
  match v with
  | VNone => DNone
  | VBool b => DBool b
  | VInt z => DInt z
  | VStr s => DStr s
  | VList items => DList (map as_decoded items)
  | VDict pairs => DDict (map (fun kv => (fst kv, as_decoded (snd kv))) pairs)
  end.

(** The decoder, allowed [depth] levels of nesting, reads the value
    back from its encoding at any indentation level, whatever follows
    it. *)
Definition decodes_back (depth : nat) (v : pyval) : Prop :=
  forall (lvl fuel : nat) (rest : string),
    (2 * String.length (iterencode lvl v ++ rest) < fuel)%nat ->
    int_end rest = true ->
    scan_once fuel depth (iterencode lvl v ++ rest) = Parsed (as_decoded v, rest).

(** The tasks that [json.dump] can write. *)
Definition writable (ts : list task) : Prop :=
  Forall (fun t => int_fits (id t) = true) ts.

(** Texts put end to end. *)
Definition concat_text (l : list string) : string :=
  fold_right append EmptyString l.

(** The dict of a task as [json.dump] leaves it when it cannot write
    the id: the opening brace, the first key and the colon. *)
Definition cut_task : string :=
  "{" ++ newline_indent 2 ++ encode_basestring "id" ++ ":".

Definition cut_body (done : list task) : string :=
  concat_text (map (fun t => iterencode 1 (to_py t) ++ "," ++ newline_indent 1)
                   done)
  ++ cut_task.

(** The file that [save_tasks] leaves when [json.dump] stops at the id
    of the task that comes after the tasks [done]. *)
Definition cut_short (done : list task) : string :=
  "[" ++ newline_indent 1 ++ cut_body done ++ " ".



(** ** The listings *)

(** What [view_tasks] and [view_pending_only] print, one constructor
    per [print] statement. *)
Inductive line : Type :=
  | EmptyListNotice                        (* No tasks found! Your to-do list is empty. *)
  | ListHeader (n : nat)                   (* Your To-Do List (n tasks): *)
  | Rule (width : nat)                     (* a row of dashes *)
  | PendingHeading                         (* PENDING TASKS: *)
  | CompletedHeading                       (* COMPLETED TASKS: *)
  | Entry (done : bool) (i : Z) (d : string)   (* status [id] description *)
  | CreatedLine (ts : string)              (* Created: ... *)
  | CompletedLine (ts : string)            (* Completed: ... *)
  | SummaryLine (p c : nat)                (* Summary: p pending, c completed *)
  | CaughtUpNotice                         (* Great! No pending tasks. ... *)
  | PendingOnlyHeader (n : nat)            (* Pending Tasks (n): *)
  | PendingOnlyEntry (i : Z) (d : string). (* [id] description *)

(** [task.get('completed_at', 'Unknown')] *)
Definition shown_completed_at (t : task) : string :=
  match completed_at t with
  | Some ts => ts
  | None => "Unknown"
  end.

Definition pending_lines (t : task) : list line :=
  [Entry false (id t) (description t); CreatedLine (created_at t)].

Definition completed_lines (t : task) : list line :=
  [Entry true (id t) (description t); CompletedLine (shown_completed_at t)].

Definition view_tasks (show_completed : bool) (a : TodoApp) : list line :=
  match tasks a with
  | [] => [EmptyListNotice]
  | _ =>
      let pending_tasks := filter pending (tasks a) in
      let completed_tasks := filter completed (tasks a) in
      ([ListHeader (List.length (tasks a)); Rule 60]
       ++ match pending_tasks with
          | [] => []
          | _ => PendingHeading :: flat_map pending_lines pending_tasks
          end
       ++ match completed_tasks with
          | [] => []
          | _ =>
              if show_completed
              then CompletedHeading :: flat_map completed_lines completed_tasks
              else []
          end
       ++ [Rule 60;
           SummaryLine (List.length pending_tasks) (List.length completed_tasks)])%list
  end.

Definition view_pending_only (a : TodoApp) : list line :=
  let pending_tasks := filter pending (tasks a) in
  match pending_tasks with
  | [] => [CaughtUpNotice]
  | _ =>
      ([PendingOnlyHeader (List.length pending_tasks); Rule 40]
       ++ flat_map (fun t => [PendingOnlyEntry (id t) (description t);
                              CreatedLine (created_at t)]) pending_tasks
       ++ [Rule 40])%list
  end.

(** The tasks a listing shows: the entries, in the order printed. *)
Fixpoint entries (ls : list line) : list (bool * Z * string) :=
  match ls with
  | [] => []
  | Entry done i d :: ls' => (done, i, d) :: entries ls'
  | PendingOnlyEntry i d :: ls' => (false, i, d) :: entries ls'
  | _ :: ls' => entries ls'
  end.

(** How a task appears as an entry. *)
Definition entry_of (t : task) : bool * Z * string :=
  (completed t, id t, description t).

(** ** One round of the menu loop of [main] *)

(** What [input()] meets: a line typed, or Ctrl-C.  An exhausted list
    is the end of the input, on which [input()] raises EOFError. *)
Inductive key : Type :=
  | Line (s : string)
  | Interrupt.

(** What a round prints, apart from the prompts of [input] and from
    the error of a [save_tasks] call that fails ([save_tasks_out]). *)
Inductive ui : Type :=
  | MenuShown                      (* show_menu() *)
  | Said (m : message)             (* a print of a TodoApp method *)
  | Listed (l : line)              (* a print of a listing *)
  | BlankDescription               (* Task description cannot be empty! (main) *)
  | HelpShown                      (* show_help() *)
  | InvalidChoice                  (* Invalid choice! Please enter a number between 1-9. *)
  | Farewell                       (* Thank you ... / All your tasks have been saved ... *)
  | InterruptFarewell              (* Goodbye! Your tasks have been saved. *)
  | ErrorOccurred.                 (* An error occurred: ... *)

(** The state after a round: whether the loop goes on, the store, the
    input not yet read and what was printed. *)
Record round : Type := mkRound {
  go_on : bool;
  after : TodoApp;
  unread : list key;
  shown : list ui
}.

(** [input(prompt)] followed by the rest of the round [k]: EOFError is
    caught by the handler for Exception and the loop goes on;
    KeyboardInterrupt ends it. *)
Definition ask (keys : list key) (a : TodoApp) (sofar : list ui)
    (k : string -> list key -> round) : round :=
  match keys with
  | [] => mkRound true a [] (sofar ++ [ErrorOccurred])%list
  | Interrupt :: ks => mkRound false a ks (sofar ++ [InterruptFarewell])%list
  | Line s :: ks => k s ks
  end.

Definition turn (now : string) (keys : list key) (a : TodoApp) : round :=
  ask keys a [MenuShown] (fun typed ks =>
    let choice := strip typed in
    if (choice =? "1")%string then
      ask ks a [MenuShown] (fun typed_desc ks' =>
        let task_desc := strip typed_desc in
        if nonempty task_desc then
          let r := add_task now task_desc a in
          mkRound true (app r) ks' (MenuShown :: map Said (out r))
        else mkRound true a ks' [MenuShown; BlankDescription])
    else if (choice =? "2")%string then
      mkRound true a ks (MenuShown :: map Listed (view_tasks true a))
    else if (choice =? "3")%string then
      mkRound true a ks (MenuShown :: map Listed (view_pending_only a))
    else if (choice =? "4")%string then
      let listing := MenuShown :: map Listed (view_pending_only a) in
      if existsb pending (tasks a) then
        ask ks a listing (fun typed_id ks' =>
          let r := mark_completed now (strip typed_id) a in
          mkRound true (app r) ks' (listing ++ map Said (out r))%list)
      else mkRound true a ks listing
    else if (choice =? "5")%string then
      let listing := MenuShown :: map Listed (view_tasks true a) in
      match tasks a with
      | [] => mkRound true a ks listing
      | _ =>
          ask ks a listing (fun typed_id ks' =>
            let r := remove_task (strip typed_id) a in
            mkRound true (app r) ks' (listing ++ map Said (out r))%list)
      end
    else if (choice =? "6")%string then
      let r := clear_completed a in
      mkRound true (app r) ks (MenuShown :: map Said (out r))
    else if (choice =? "7")%string then
      match show_stats a with
      | Some printed => mkRound true a ks (MenuShown :: map Said printed)
      | None => mkRound true a ks [MenuShown; ErrorOccurred]
      end
    else if (choice =? "8")%string then
      mkRound true a ks [MenuShown; HelpShown]
    else if (choice =? "9")%string then
      mkRound false a ks [MenuShown; Farewell]
    else mkRound true a ks [MenuShown; InvalidChoice]).

(** Whether the round asks for more after the choice: the description
    on choice 1, the id on choice 4 when a task is pending and on
    choice 5 when the store holds a task. *)
Definition asks_again (choice : string) (a : TodoApp) : bool :=
  (choice =? "1")%string
  || (choice =? "4")%string && existsb pending (tasks a)
  || (choice =? "5")%string && match tasks a with [] => false | _ => true end.

(** What a round does to the store: nothing, or the one call that the
    choice stands for, made with what was typed at the second prompt,
    stripped. *)
Definition one_call (now : string) (keys : list key) (a : TodoApp) (r : round)
  : Prop :=
  after r = a \/
  (exists c d ks,
     keys = Line c :: Line d :: ks /\ go_on r = true /\ unread r = ks /\
     ((strip c = "1" /\ strip d <> EmptyString /\
       after r = exec (Add now (strip d)) a) \/
      (strip c = "4" /\ after r = exec (Complete now (strip d)) a) \/
      (strip c = "5" /\ after r = exec (Remove (strip d)) a))) \/
  (exists c ks,
     keys = Line c :: ks /\ strip c = "6" /\ go_on r = true /\ unread r = ks /\
     after r = exec ClearCompleted a).

(** A text of [n] opening brackets. *)
Fixpoint opened (n : nat) : string :=
  match n with
  | O => EmptyString
  | S k => String "[" (opened k)
  end.

(** Operations that take no task out of the store. *)
Definition keeps (o : op) : bool :=
  match o with
  | Add _ _ | Complete _ _ => true
  | Remove _ | ClearCompleted => false
  end.

(** * Properties of the store *)

(** ** Lists of tasks *)

Lemma find_task_first (n : Z) (l1 : list task) (t : task) (l2 : list task) (i : nat) :
  id t = n -> (forall u, In u l1 -> id u <> n) ->
  find_task n i (l1 ++ t :: l2)%list = Some ((i + List.length l1)%nat, t).
Proof.
  intros Ht. revert i.
  induction l1 as [|u l1 IH]; intros i Hl1; simpl.
  - rewrite Ht, Z.eqb_refl, Nat.add_0_r. reflexivity.
  - destruct (Z.eqb_spec (id u) n) as [E|_].
    + exfalso. apply (Hl1 u); [left; reflexivity | exact E].
    + rewrite IH by (intros v Hv; apply Hl1; right; exact Hv).
      f_equal. f_equal. lia.
Qed.

Lemma find_task_none (n : Z) (l : list task) (i : nat) :
  (forall u, In u l -> id u <> n) -> find_task n i l = None.
Proof.
  revert i. induction l as [|u l IH]; intros i Hl; simpl.
  - reflexivity.
  - destruct (Z.eqb_spec (id u) n) as [E|_].
    + exfalso. apply (Hl u); [left; reflexivity | exact E].
    + apply IH. intros v Hv. apply Hl. right. exact Hv.
Qed.

Lemma find_task_some (n : Z) (l : list task) (i j : nat) (t : task) :
  find_task n i l = Some (j, t) ->
  exists l1 l2, l = (l1 ++ t :: l2)%list /\ id t = n /\
                (forall u, In u l1 -> id u <> n) /\ j = (i + List.length l1)%nat.
Proof.
  revert i. induction l as [|u l IH]; intros i H; simpl in H.
  - discriminate.
  - destruct (Z.eqb_spec (id u) n) as [E|NE].
    + injection H as <- <-. exists [], l. simpl.
      repeat split; [exact E | intros v [] | lia].
    + destruct (IH _ H) as (l1 & l2 & -> & Ht & Hl1 & ->).
      exists (u :: l1), l2. simpl. repeat split.
      * exact Ht.
      * intros v [<-|Hv]; [exact NE | apply Hl1; exact Hv].
      * lia.
Qed.

Lemma find_task_absent (n : Z) (l : list task) (i : nat) :
  find_task n i l = None -> forall u, In u l -> id u <> n.
Proof.
  revert i. induction l as [|u l IH]; intros i H v Hv; simpl in *.
  - contradiction.
  - destruct (Z.eqb_spec (id u) n) as [E|NE]; [discriminate|].
    destruct Hv as [<-|Hv]; [exact NE | exact (IH _ H v Hv)].
Qed.

Lemma pop_middle (l1 : list task) (t : task) (l2 : list task) :
  pop (List.length l1) (l1 ++ t :: l2)%list = Some (t, (l1 ++ l2)%list).
Proof.
  induction l1 as [|u l1 IH]; simpl.
  - reflexivity.
  - rewrite IH. reflexivity.
Qed.

Lemma complete_first_match (now : string) (n : Z) (l1 : list task) (t : task) (l2 : list task) :
  id t = n -> (forall u, In u l1 -> id u <> n) ->
  complete_first now n (l1 ++ t :: l2)%list =
  Some ((l1 ++ set_completed now t :: l2)%list, set_completed now t).
Proof.
  intros Ht. induction l1 as [|u l1 IH]; intros Hl1; simpl.
  - rewrite Ht, Z.eqb_refl. reflexivity.
  - destruct (Z.eqb_spec (id u) n) as [E|_].
    + exfalso. apply (Hl1 u); [left; reflexivity | exact E].
    + rewrite IH by (intros v Hv; apply Hl1; right; exact Hv). reflexivity.
Qed.

Lemma complete_first_none (now : string) (n : Z) (l : list task) :
  (forall u, In u l -> id u <> n) -> complete_first now n l = None.
Proof.
  induction l as [|u l IH]; intros Hl; simpl.
  - reflexivity.
  - destruct (Z.eqb_spec (id u) n) as [E|_].
    + exfalso. apply (Hl u); [left; reflexivity | exact E].
    + rewrite IH by (intros v Hv; apply Hl; right; exact Hv). reflexivity.
Qed.

Lemma complete_first_some (now : string) (n : Z) (l r : list task) (u : task) :
  complete_first now n l = Some (r, u) ->
  exists l1 t l2, l = (l1 ++ t :: l2)%list /\ id t = n /\
                  (forall v, In v l1 -> id v <> n) /\
                  r = (l1 ++ set_completed now t :: l2)%list /\
                  u = set_completed now t.
Proof.
  revert r. induction l as [|x l IH]; intros r H; simpl in H.
  - discriminate.
  - destruct (Z.eqb_spec (id x) n) as [E|NE].
    + injection H as <- <-. exists [], x, l. simpl.
      repeat split; [exact E | intros v []].
    + destruct (complete_first now n l) as [[r' u']|] eqn:Hc; [|discriminate].
      injection H as <- <-.
      destruct (IH _ eq_refl) as (l1 & t & l2 & -> & Ht & Hl1 & -> & ->).
      exists (x :: l1), t, l2. simpl. repeat split.
      * exact Ht.
      * intros v [<-|Hv]; [exact NE | apply Hl1; exact Hv].
Qed.

Lemma nonempty_false (s : string) : nonempty s = false <-> s = EmptyString.
Proof.
  destruct s; simpl; split; intros H; try reflexivity; discriminate.
Qed.

Lemma nonempty_true (s : string) : nonempty s = true <-> s <> EmptyString.
Proof.
  destruct s; simpl; split; intros H; try reflexivity; try discriminate.
  contradiction H; reflexivity.
Qed.

(** ** add_task *)

(** C4. For a description whose stripped form is non-empty, on any
    store, add_task returns True and appends exactly one task at the end
    of the sequence: its description is the stripped text, its id is the
    previous length plus one, it is not completed, it carries the
    creation timestamp and no completion timestamp; the tasks already
    present are unchanged. *)
Theorem add_task_appends (now d : string) (a : TodoApp) :
  strip d <> EmptyString ->
  let t := mkTask (Z.of_nat (List.length (tasks a)) + 1) (strip d) false now None in
  ret (add_task now d a) = true /\
  tasks (app (add_task now d a)) = (tasks a ++ [t])%list /\
  List.length (tasks (app (add_task now d a))) = S (List.length (tasks a)) /\
  firstn (List.length (tasks a)) (tasks (app (add_task now d a))) = tasks a /\
  out (add_task now d a) = [TaskAdded d].
Proof.
  intros Hd t. unfold add_task.
  apply nonempty_true in Hd. rewrite Hd. simpl.
  repeat split.
  - rewrite length_app. simpl. lia.
  - rewrite firstn_app, Nat.sub_diag, firstn_all. simpl. apply app_nil_r.
Qed.

Lemma add_task_appends_witness :
  strip "  buy milk " <> EmptyString /\
  ret (add_task "2024-01-01 10:00:00" "  buy milk " empty_store) = true /\
  tasks (app (add_task "2024-01-01 10:00:00" "  buy milk " empty_store)) =
    [mkTask 1 "buy milk" false "2024-01-01 10:00:00" None].
Proof.
  assert (H : strip "  buy milk " <> EmptyString) by (vm_compute; discriminate).
  split; [exact H|].
  destruct (add_task_appends "2024-01-01 10:00:00" "  buy milk " empty_store H)
    as (Hr & Ht & _).
  split; [exact Hr | exact Ht].
Defined.

(** C5. For a description that is empty once stripped, add_task prints
    the empty-description error, returns False and leaves the store (the
    task sequence and the file) as it was. *)
Theorem add_task_rejects_blank (now d : string) (a : TodoApp) :
  strip d = EmptyString ->
  add_task now d a = mkOutcome false a [EmptyDescriptionError].
Proof.
  intros Hd. unfold add_task. rewrite Hd. reflexivity.
Qed.

Lemma add_task_rejects_blank_witness :
  add_task "2024-01-01 10:00:00" "   " empty_store =
    mkOutcome false empty_store [EmptyDescriptionError] /\
  add_task "2024-01-01 10:00:00" EmptyString empty_store =
    mkOutcome false empty_store [EmptyDescriptionError].
Proof.
  split.
  - apply (add_task_rejects_blank "2024-01-01 10:00:00" "   " empty_store).
    reflexivity.
  - apply (add_task_rejects_blank "2024-01-01 10:00:00" EmptyString empty_store).
    reflexivity.
Defined.

(** ** remove_task *)

(** The index that the loop of remove_task finds is in range: the
    IndexError branch of [pop] is never taken. *)
Lemma find_task_pop (n : Z) (l : list task) (i : nat) (t : task) :
  find_task n 0 l = Some (i, t) -> exists r, pop i l = Some (t, r).
Proof.
  intros H. destruct (find_task_some _ _ _ _ _ H) as (l1 & l2 & -> & _ & _ & ->).
  exists (l1 ++ l2)%list. simpl. apply pop_middle.
Qed.

(** C6. remove_task with a text that int() rejects prints the invalid-id
    error, returns False and leaves the store as it was; with an id that
    no task carries it prints the not-found error, returns False and
    leaves the store as it was; with an id that some task carries it
    returns True and takes out the first task with that id, so that the
    sequence is one shorter and the other tasks keep their order. *)
Theorem remove_task_spec (s : string) (a : TodoApp) :
  (py_int s = None -> remove_task s a = mkOutcome false a [InvalidIdError]) /\
  (forall n, py_int s = Some n ->
     (forall t, In t (tasks a) -> id t <> n) ->
     remove_task s a = mkOutcome false a [NotFoundError n]) /\
  (forall n l1 t l2, py_int s = Some n ->
     tasks a = (l1 ++ t :: l2)%list -> id t = n ->
     (forall u, In u l1 -> id u <> n) ->
     ret (remove_task s a) = true /\
     tasks (app (remove_task s a)) = (l1 ++ l2)%list /\
     S (List.length (tasks (app (remove_task s a)))) = List.length (tasks a) /\
     out (remove_task s a) = [TaskRemoved (description t)]).
Proof.
  unfold remove_task. split; [|split].
  - intros ->. reflexivity.
  - intros n -> Hnone. rewrite find_task_none by exact Hnone. reflexivity.
  - intros n l1 t l2 -> Hl Ht Hl1.
    rewrite Hl, (find_task_first n l1 t l2 0 Ht Hl1). simpl.
    rewrite pop_middle. simpl.
    repeat split. rewrite !List.length_app. simpl. lia.
Qed.

Lemma remove_task_spec_witness :
  let a := run [Add "t1" "a"; Add "t2" "b"; Add "t3" "c"] empty_store in
  remove_task "two" a = mkOutcome false a [InvalidIdError] /\
  remove_task "99" a = mkOutcome false a [NotFoundError 99] /\
  tasks (app (remove_task "2" a)) =
    [mkTask 1 "a" false "t1" None; mkTask 3 "c" false "t3" None].
Proof.
  set (a := run [Add "t1" "a"; Add "t2" "b"; Add "t3" "c"] empty_store).
  split; [|split].
  - apply (proj1 (remove_task_spec "two" a)). reflexivity.
  - apply (proj1 (proj2 (remove_task_spec "99" a)) 99); [reflexivity|].
    intros t [<-|[<-|[<-|[]]]]; discriminate.
  - apply (proj2 (proj2 (remove_task_spec "2" a)) 2
             [mkTask 1 "a" false "t1" None] (mkTask 2 "b" false "t2" None)
             [mkTask 3 "c" false "t3" None]); try reflexivity.
    intros u [<-|[]]; discriminate.
Defined.

(** ** mark_completed *)

(** C7. mark_completed on the id of an existing task returns True and
    sets completed and completed_at on the first task with that id; a
    second call with the same id returns True again, leaves completed
    set and replaces completed_at by the timestamp of the second call. *)
Theorem mark_completed_twice (now1 now2 s : string) (n : Z) (a : TodoApp)
    (l1 : list task) (t : task) (l2 : list task) :
  py_int s = Some n ->
  tasks a = (l1 ++ t :: l2)%list -> id t = n ->
  (forall u, In u l1 -> id u <> n) ->
  let r1 := mark_completed now1 s a in
  let r2 := mark_completed now2 s (app r1) in
  ret r1 = true /\
  tasks (app r1) = (l1 ++ set_completed now1 t :: l2)%list /\
  completed (set_completed now1 t) = true /\
  completed_at (set_completed now1 t) = Some now1 /\
  ret r2 = true /\
  tasks (app r2) = (l1 ++ set_completed now2 t :: l2)%list /\
  completed (set_completed now2 t) = true /\
  completed_at (set_completed now2 t) = Some now2.
Proof.
  intros Hs Hl Ht Hl1 r1 r2. subst r2 r1. unfold mark_completed.
  rewrite Hs, Hl, (complete_first_match now1 n l1 t l2 Ht Hl1). simpl.
  rewrite (complete_first_match now2 n l1 (set_completed now1 t) l2 Ht Hl1).
  simpl. repeat split.
Qed.

Lemma mark_completed_twice_witness :
  let a := run [Add "t1" "a"; Add "t2" "b"] empty_store in
  tasks (app (mark_completed "t4" "2" (app (mark_completed "t3" "2" a)))) =
    [mkTask 1 "a" false "t1" None; mkTask 2 "b" true "t2" (Some "t4")].
Proof.
  set (a := run [Add "t1" "a"; Add "t2" "b"] empty_store).
  assert (H1 : forall u, In u [mkTask 1 "a" false "t1" None] -> id u <> 2)
    by (intros u [<-|[]]; discriminate).
  exact (proj1 (proj2 (proj2 (proj2 (proj2 (proj2
    (mark_completed_twice "t3" "t4" "2" 2 a
       [mkTask 1 "a" false "t1" None] (mkTask 2 "b" false "t2" None) []
       eq_refl eq_refl eq_refl H1))))))).
Defined.

(** C10. A call of mark_completed that returns True changes the first
    task whose id matches and nothing else: that task keeps its id, its
    description and its creation timestamp; the tasks before and after
    it (a later task with the same id included), the length and the
    order of the sequence are unchanged. *)
Theorem mark_completed_frame (now s : string) (a : TodoApp) :
  ret (mark_completed now s a) = true ->
  exists n l1 t t' l2,
    py_int s = Some n /\
    tasks a = (l1 ++ t :: l2)%list /\
    id t = n /\ (forall u, In u l1 -> id u <> n) /\
    tasks (app (mark_completed now s a)) = (l1 ++ t' :: l2)%list /\
    id t' = id t /\ description t' = description t /\
    created_at t' = created_at t /\
    completed t' = true /\ completed_at t' = Some now /\
    List.length (tasks (app (mark_completed now s a))) = List.length (tasks a).
Proof.
  unfold mark_completed.
  destruct (py_int s) as [n|]; [|discriminate].
  destruct (complete_first now n (tasks a)) as [[r u]|] eqn:Hc; [|discriminate].
  intros _. simpl.
  destruct (complete_first_some _ _ _ _ _ Hc) as (l1 & t & l2 & Hl & Ht & Hl1 & -> & ->).
  exists n, l1, t, (set_completed now t), l2.
  repeat split; try assumption.
  rewrite Hl, !List.length_app. reflexivity.
Qed.

Lemma mark_completed_frame_witness :
  let a := mkApp [mkTask 2 "b" false "t1" None; mkTask 2 "c" false "t2" None] None in
  exists n l1 t t' l2,
    py_int "2" = Some n /\
    tasks a = (l1 ++ t :: l2)%list /\
    id t = n /\ (forall u, In u l1 -> id u <> n) /\
    tasks (app (mark_completed "t3" "2" a)) = (l1 ++ t' :: l2)%list /\
    id t' = id t /\ description t' = description t /\
    created_at t' = created_at t /\
    completed t' = true /\ completed_at t' = Some "t3" /\
    List.length (tasks (app (mark_completed "t3" "2" a))) = List.length (tasks a).
Proof.
  exact (mark_completed_frame "t3" "2"
           (mkApp [mkTask 2 "b" false "t1" None; mkTask 2 "c" false "t2" None] None)
           eq_refl).
Defined.

(** ** clear_completed *)

Lemma filter_split_length (l : list task) :
  List.length l =
  (List.length (filter pending l) + List.length (filter completed l))%nat.
Proof.
  induction l as [|t l IH]; simpl; [reflexivity|].
  unfold pending at 1. destruct (completed t); simpl; lia.
Qed.

Lemma filter_pending_all (l : list task) :
  List.length (filter completed l) = 0%nat -> filter pending l = l.
Proof.
  induction l as [|t l IH]; simpl; [reflexivity|].
  unfold pending at 1. destruct (completed t); simpl; intros H.
  - discriminate.
  - rewrite IH by exact H. reflexivity.
Qed.

Lemma filter_completed_pending (l : list task) :
  filter completed (filter pending l) = [].
Proof.
  induction l as [|t l IH]; simpl; [reflexivity|].
  unfold pending at 1. destruct (completed t) eqn:E; simpl; [exact IH|].
  rewrite E. exact IH.
Qed.

Lemma clear_completed_tasks (a : TodoApp) :
  tasks (app (clear_completed a)) = filter pending (tasks a).
Proof.
  unfold clear_completed.
  destruct (Nat.eqb_spec (List.length (filter completed (tasks a))) 0) as [E|_];
    simpl; [|reflexivity].
  symmetry. apply filter_pending_all. exact E.
Qed.

(** C8, as the class has it. clear_completed removes exactly the
    completed tasks and keeps the pending ones in their order; when at
    least one task was removed it saves the store and prints their
    number; when no task is completed it prints that there is nothing
    to clear, names no number and leaves the store as it was, which is
    what a second call in a row does. *)
Theorem clear_completed_spec (a : TodoApp) :
  let n := List.length (filter completed (tasks a)) in
  let r := clear_completed a in
  tasks (app r) = filter pending (tasks a) /\
  (forall t, In t (tasks (app r)) <-> In t (tasks a) /\ completed t = false) /\
  List.length (tasks a) = (List.length (tasks (app r)) + n)%nat /\
  out r = (if (n =? 0)%nat then [NothingToClear] else [Cleared n]) /\
  app r = (if (n =? 0)%nat then a
           else save_tasks (mkApp (filter pending (tasks a)) (file a))) /\
  clear_completed (app r) = mkOutcome tt (app r) [NothingToClear].
Proof.
  intros n r.
  assert (Ht : tasks (app r) = filter pending (tasks a))
    by apply clear_completed_tasks.
  split; [exact Ht|]. split; [|split; [|split; [|split]]].
  - intros t. rewrite Ht, filter_In. unfold pending.
    rewrite negb_true_iff. reflexivity.
  - rewrite Ht. apply filter_split_length.
  - subst r. unfold clear_completed. fold n.
    destruct (n =? 0)%nat; reflexivity.
  - subst r. unfold clear_completed. fold n.
    destruct (n =? 0)%nat; reflexivity.
  - unfold clear_completed at 1. rewrite Ht, filter_completed_pending.
    reflexivity.
Qed.

(** C8, counterexample to the claim as stated: on a store without a
    completed task the call reports no count of 0. *)
Lemma clear_completed_no_zero_count :
  out (clear_completed empty_store) = [NothingToClear] /\
  out (clear_completed empty_store) <> [Cleared 0].
Proof.
  split; [reflexivity | discriminate].
Qed.

(** ** show_stats *)

(** C2, as the class has it. On a store without tasks show_stats prints
    that no tasks are available and no figures; no store makes it raise
    ZeroDivisionError. *)
Theorem show_stats_empty :
  (forall f, show_stats (mkApp [] f) = Some [NoStatistics]) /\
  (forall a, show_stats a <> None).
Proof.
  split; [reflexivity|].
  intros a. unfold show_stats.
  destruct (tasks a) as [|t l]; [discriminate|].
  simpl List.length. simpl Nat.ltb. unfold truediv.
  destruct (Z.eqb_spec (Z.of_nat (S (List.length l))) 0) as [E|_]; [lia|].
  discriminate.
Qed.

(** C2, counterexample to the claim as stated: on the empty store no
    total, completed, pending or completion rate of 0 is reported. *)
Lemma show_stats_empty_no_figures :
  show_stats empty_store = Some [NoStatistics] /\
  show_stats empty_store <> Some [Statistics 0 0 0 0].
Proof.
  split; [reflexivity | discriminate].
Qed.

(** The scenario of the specification: two tasks, the first completed. *)
Example show_stats_scenario :
  show_stats (run [Add "t1" "buy milk"; Add "t2" "pay bills"; Complete "t3" "1"]
                  empty_store)
  = Some [Statistics 2 1 1 50].
Proof. reflexivity. Qed.

(** The second scenario of the specification: an id that no task has. *)
Example remove_task_scenario :
  let a := run [Add "t1" "buy milk"; Add "t2" "pay bills"; Complete "t3" "1"]
               empty_store in
  out (remove_task "99" a) = [NotFoundError 99] /\
  List.length (tasks (app (remove_task "99" a))) = 2%nat.
Proof. split; reflexivity. Qed.

(** ** Reachable stores *)

Lemma reachable_run (ops : list op) (a : TodoApp) :
  reachable a -> reachable (run ops a).
Proof.
  revert a. induction ops as [|o ops IH]; intros a Ha; simpl.
  - exact Ha.
  - apply IH. apply reach_step. exact Ha.
Qed.

(** C1, the failing run. Adding two tasks, removing the first and
    adding a third leaves two tasks in the store that both carry id 2. *)
Theorem add_after_remove_repeats_id :
  let a := run [Add "t1" "a"; Add "t2" "b"; Remove "1"; Add "t3" "c"] empty_store in
  reachable a /\
  tasks a = [mkTask 2 "b" false "t2" None; mkTask 2 "c" false "t3" None] /\
  ~ NoDup (map id (tasks a)).
Proof.
  split; [|split].
  - apply reachable_run. apply reach_empty.
  - reflexivity.
  - intros H. simpl in H. inversion H as [|x l Hin _]; subst.
    apply Hin. left. reflexivity.
Qed.

(** ** Completion timestamps *)

Lemma carried_refl (t : task) : carried t t.
Proof. unfold carried. repeat split; auto. Qed.

Lemma carried_set_completed (now : string) (t : task) :
  carried t (set_completed now t).
Proof.
  unfold carried. simpl. repeat split; auto. intros _. discriminate.
Qed.

Lemma Forall2_carried_refl (l : list task) : Forall2 carried l l.
Proof.
  induction l; constructor; [apply carried_refl | assumption].
Qed.

Lemma subseq_refl (l : list task) : subseq l l.
Proof. induction l; constructor; assumption. Qed.

Lemma subseq_remove (l1 : list task) (t : task) (l2 : list task) :
  subseq (l1 ++ l2)%list (l1 ++ t :: l2)%list.
Proof.
  induction l1 as [|u l1 IH]; simpl.
  - apply subseq_drop. apply subseq_refl.
  - apply subseq_keep. exact IH.
Qed.

Lemma subseq_filter (p : task -> bool) (l : list task) : subseq (filter p l) l.
Proof.
  induction l as [|t l IH]; simpl; [constructor|].
  destruct (p t); constructor; exact IH.
Qed.

Lemma add_task_tasks (now d : string) (a : TodoApp) :
  tasks (app (add_task now d a)) = tasks a \/
  tasks (app (add_task now d a)) =
    (tasks a ++ [mkTask (Z.of_nat (List.length (tasks a)) + 1) (strip d) false now None])%list.
Proof.
  unfold add_task. destruct (nonempty (strip d)); simpl; auto.
Qed.

Lemma remove_task_tasks (s : string) (a : TodoApp) :
  tasks (app (remove_task s a)) = tasks a \/
  exists l1 t l2, tasks a = (l1 ++ t :: l2)%list /\
                  tasks (app (remove_task s a)) = (l1 ++ l2)%list.
Proof.
  unfold remove_task. destruct (py_int s) as [n|]; [|left; reflexivity].
  destruct (find_task n 0 (tasks a)) as [[i t]|] eqn:Hf; [|left; reflexivity].
  destruct (find_task_some _ _ _ _ _ Hf) as (l1 & l2 & Hl & _ & _ & ->).
  right. exists l1, t, l2. split; [exact Hl|].
  rewrite Hl. simpl. rewrite pop_middle. reflexivity.
Qed.

Lemma mark_completed_tasks (now s : string) (a : TodoApp) :
  tasks (app (mark_completed now s a)) = tasks a \/
  exists l1 t l2, tasks a = (l1 ++ t :: l2)%list /\
                  tasks (app (mark_completed now s a)) =
                    (l1 ++ set_completed now t :: l2)%list.
Proof.
  unfold mark_completed. destruct (py_int s) as [n|]; [|left; reflexivity].
  destruct (complete_first now n (tasks a)) as [[r u]|] eqn:Hc; [|left; reflexivity].
  destruct (complete_first_some _ _ _ _ _ Hc) as (l1 & t & l2 & Hl & _ & _ & -> & _).
  right. exists l1, t, l2. split; [exact Hl | reflexivity].
Qed.

Lemma stamp_ok_step (o : op) (a : TodoApp) :
  Forall stamp_ok (tasks a) -> Forall stamp_ok (tasks (exec o a)).
Proof.
  intros H. destruct o as [now d|s|now s|]; simpl.
  - destruct (add_task_tasks now d a) as [->| ->]; [exact H|].
    apply Forall_app. split; [exact H|].
    constructor; [|constructor]. intros _. reflexivity.
  - destruct (remove_task_tasks s a) as [->|(l1 & t & l2 & Hl & ->)]; [exact H|].
    rewrite Hl in H. apply Forall_app in H. destruct H as [H1 H2].
    apply Forall_app. split; [exact H1|]. inversion H2; assumption.
  - destruct (mark_completed_tasks now s a) as [->|(l1 & t & l2 & Hl & ->)]; [exact H|].
    rewrite Hl in H. apply Forall_app in H. destruct H as [H1 H2].
    apply Forall_app. split; [exact H1|].
    inversion H2; subst. constructor; [|assumption].
    intros Hc. simpl in Hc. discriminate.
  - rewrite clear_completed_tasks.
    apply Forall_forall. intros t Ht. apply filter_In in Ht.
    rewrite Forall_forall in H. apply H. apply Ht.
Qed.

Lemma reachable_stamp_ok (a : TodoApp) :
  reachable a -> Forall stamp_ok (tasks a).
Proof.
  induction 1 as [|o a _ IH].
  - constructor.
  - apply stamp_ok_step. exact IH.
Qed.

Lemma Forall2_carried_update (now : string) (l1 : list task) (t : task) (l2 : list task) :
  Forall2 carried (l1 ++ t :: l2)%list (l1 ++ set_completed now t :: l2)%list.
Proof.
  apply Forall2_app; [apply Forall2_carried_refl|].
  constructor; [apply carried_set_completed | apply Forall2_carried_refl].
Qed.

(** C9. In every store reachable from the empty one by add_task,
    remove_task, mark_completed and clear_completed, a task that is not
    completed has no completion timestamp.  No call takes a completion
    timestamp away: add_task and mark_completed leave every task at its
    position, with its completed flag and completion timestamp still
    set if they were; remove_task and clear_completed leave the tasks
    that stay in the store unchanged. *)
Theorem completed_at_discipline :
  (forall a, reachable a -> Forall stamp_ok (tasks a)) /\
  (forall o a,
     match o with
     | Add _ _ | Complete _ _ =>
         Forall2 carried (tasks a)
                 (firstn (List.length (tasks a)) (tasks (exec o a)))
     | Remove _ | ClearCompleted => subseq (tasks (exec o a)) (tasks a)
     end).
Proof.
  split; [exact reachable_stamp_ok|].
  intros o a. destruct o as [now d|s|now s|]; simpl.
  - destruct (add_task_tasks now d a) as [->| ->].
    + rewrite firstn_all. apply Forall2_carried_refl.
    + rewrite firstn_app, Nat.sub_diag, firstn_all. simpl.
      rewrite List.app_nil_r. apply Forall2_carried_refl.
  - destruct (remove_task_tasks s a) as [->|(l1 & t & l2 & -> & ->)].
    + apply subseq_refl.
    + apply subseq_remove.
  - destruct (mark_completed_tasks now s a) as [->|(l1 & t & l2 & Hl & ->)].
    + rewrite firstn_all. apply Forall2_carried_refl.
    + rewrite Hl.
      replace (List.length (l1 ++ t :: l2)%list)
        with (List.length (l1 ++ set_completed now t :: l2)%list)
        by (rewrite !List.length_app; reflexivity).
      rewrite firstn_all. apply Forall2_carried_update.
  - rewrite clear_completed_tasks. apply subseq_filter.
Qed.

Lemma completed_at_discipline_witness :
  let a := run [Add "t1" "a"; Add "t2" "b"; Complete "t3" "1"; Complete "t4" "1";
                Remove "2"] empty_store in
  Forall stamp_ok (tasks a) /\
  Forall2 carried (tasks a)
          (firstn (List.length (tasks a)) (tasks (exec (Complete "t5" "1") a))).
Proof.
  split.
  - apply (proj1 completed_at_discipline).
    apply reachable_run. apply reach_empty.
  - exact (proj2 completed_at_discipline (Complete "t5" "1")
             (run [Add "t1" "a"; Add "t2" "b"; Complete "t3" "1"; Complete "t4" "1";
                   Remove "2"] empty_store)).
Defined.

(** * Further properties of the class *)

(** ** Stripped text *)

Lemma rstrip_nonspace_head (c : ascii) (r : string) :
  isspace c = false -> rstrip (String c r) = String c (rstrip r).
Proof.
  intros H. cbn [rstrip]. rewrite H. destruct (rstrip r); reflexivity.
Qed.

Lemma rstrip_idempotent (s : string) : rstrip (rstrip s) = rstrip s.
Proof.
  induction s as [|c s IH]; [reflexivity|].
  cbn [rstrip]. destruct (rstrip s) as [|c' r'] eqn:E.
  - destruct (isspace c) eqn:Hc; [reflexivity|].
    cbn [rstrip]. rewrite Hc. reflexivity.
  - change (match rstrip (String c' r') with
            | EmptyString => if isspace c then EmptyString else String c EmptyString
            | String a b => String c (String a b)
            end = String c (String c' r')).
    rewrite IH. reflexivity.
Qed.

Lemma lstrip_head (s : string) :
  lstrip s = EmptyString \/
  exists c r, lstrip s = String c r /\ isspace c = false.
Proof.
  induction s as [|c s IH]; [left; reflexivity|].
  cbn [lstrip]. destruct (isspace c) eqn:Hc; [exact IH|].
  right. exists c, s. split; [reflexivity | exact Hc].
Qed.

Lemma strip_idempotent (s : string) : strip (strip s) = strip s.
Proof.
  unfold strip. destruct (lstrip_head s) as [E|(c & r & E & Hc)]; rewrite E.
  - reflexivity.
  - rewrite (rstrip_nonspace_head c r Hc). cbn [lstrip]. rewrite Hc.
    rewrite (rstrip_nonspace_head c _ Hc), rstrip_idempotent. reflexivity.
Qed.

(** ** Invariants of the tasks in a reachable store *)

(** A property of single tasks that holds of every task add_task creates
    and is kept by mark_completed holds of all tasks of a reachable
    store. *)
Lemma reachable_all (P : task -> Prop) :
  (forall now d n, nonempty (strip d) = true ->
                   P (mkTask n (strip d) false now None)) ->
  (forall now t, P t -> P (set_completed now t)) ->
  forall a, reachable a -> Forall P (tasks a).
Proof.
  intros Hnew Hdone a Ha. induction Ha as [|o a _ IH]; [constructor|].
  destruct o as [now d|s|now s|]; simpl.
  - unfold add_task. destruct (nonempty (strip d)) eqn:E; simpl; [|exact IH].
    apply Forall_app. split; [exact IH|].
    constructor; [apply Hnew; exact E | constructor].
  - destruct (remove_task_tasks s a) as [->|(l1 & t & l2 & Hl & ->)]; [exact IH|].
    rewrite Hl in IH. apply Forall_app in IH. destruct IH as [H1 H2].
    apply Forall_app. split; [exact H1|]. inversion H2; assumption.
  - destruct (mark_completed_tasks now s a) as [->|(l1 & t & l2 & Hl & ->)]; [exact IH|].
    rewrite Hl in IH. apply Forall_app in IH. destruct IH as [H1 H2].
    apply Forall_app. split; [exact H1|].
    inversion H2; subst. constructor; [apply Hdone|]; assumption.
  - rewrite clear_completed_tasks.
    apply Forall_forall. intros t Ht. apply filter_In in Ht.
    rewrite Forall_forall in IH. apply IH. apply Ht.
Qed.

(** X2. In every reachable store each description is non-empty and has
    no whitespace at either end: stripping it changes nothing. *)
Theorem descriptions_stripped (a : TodoApp) :
  reachable a ->
  Forall (fun t => description t <> EmptyString /\
                   strip (description t) = description t) (tasks a).
Proof.
  apply reachable_all.
  - intros now d n E. simpl. split.
    + apply nonempty_true. exact E.
    + apply strip_idempotent.
  - intros now t H. exact H.
Qed.

Lemma descriptions_stripped_witness :
  Forall (fun t => description t <> EmptyString /\
                   strip (description t) = description t)
         (tasks (run [Add "t1" "  buy milk  "; Add "t2" "   "; Complete "t3" "1"]
                     empty_store)).
Proof.
  apply (descriptions_stripped
           (run [Add "t1" "  buy milk  "; Add "t2" "   "; Complete "t3" "1"]
                empty_store)).
  apply reachable_run. apply reach_empty.
Defined.

(** X5. In every reachable store a completed task carries its
    completion timestamp, so a line that view_tasks prints for the
    completion time of a task shows a recorded timestamp and not the
    fallback text for a missing one. *)
Theorem completed_line_is_recorded (a : TodoApp) :
  reachable a ->
  (forall t, In t (tasks a) -> completed t = true ->
             exists ts, completed_at t = Some ts) /\
  (forall sc ts, In (CompletedLine ts) (view_tasks sc a) ->
                 exists t, In t (tasks a) /\ completed t = true /\
                           completed_at t = Some ts).
Proof.
  intros Ha.
  assert (Hinv : forall t, In t (tasks a) -> completed t = true ->
                           exists ts, completed_at t = Some ts).
  { apply (proj1 (Forall_forall
               (fun t => completed t = true -> exists ts, completed_at t = Some ts)
               (tasks a))).
    revert a Ha. apply reachable_all.
    - intros now d n _ H. discriminate H.
    - intros now t _ _. exists now. reflexivity. }
  split; [exact Hinv|].
  intros sc ts Hin. unfold view_tasks in Hin.
  destruct (tasks a) as [|t0 l0] eqn:Et; [destruct Hin as [H|[]]; discriminate H|].
  rewrite <- Et in *. clear Et t0 l0.
  assert (Hp : forall l, ~ In (CompletedLine ts) (flat_map pending_lines l)).
  { intros l H. apply in_flat_map in H. destruct H as (t & _ & [H|[H|[]]]);
      discriminate H. }
  assert (Hc : In (CompletedLine ts)
                  (flat_map completed_lines (filter completed (tasks a)))).
  { repeat (apply in_app_or in Hin; destruct Hin as [Hin|Hin]).
    - destruct Hin as [H|[H|[]]]; discriminate H.
    - destruct (filter pending (tasks a)); [contradiction|].
      destruct Hin as [H|Hin]; [discriminate H | exfalso; exact (Hp _ Hin)].
    - destruct (filter completed (tasks a)) as [|c0 cs] eqn:Ec; [contradiction|].
      destruct sc; [|contradiction].
      destruct Hin as [H|Hin]; [discriminate H | exact Hin].
    - destruct Hin as [H|[H|[]]]; discriminate H. }
  apply in_flat_map in Hc. destruct Hc as (t & Ht & Hl).
  apply filter_In in Ht. destruct Ht as [Ht Hd].
  destruct Hl as [H|[H|[]]]; [discriminate H|].
  injection H as H. destruct (Hinv t Ht Hd) as (ts' & E).
  exists t. split; [exact Ht|]. split; [exact Hd|].
  unfold shown_completed_at in H. rewrite E in H. subst ts'. exact E.
Qed.

Lemma completed_line_is_recorded_witness :
  let a := run [Add "t1" "a"; Add "t2" "b"; Complete "t3" "2"] empty_store in
  exists t, In t (tasks a) /\ completed t = true /\ completed_at t = Some "t3".
Proof.
  apply (proj2 (completed_line_is_recorded
                  (run [Add "t1" "a"; Add "t2" "b"; Complete "t3" "2"] empty_store)
                  (reachable_run _ _ reach_empty)) true "t3").
  simpl. tauto.
Defined.

(** ** Ids *)

Lemma exec_keeps_ids (o : op) (a : TodoApp) :
  keeps o = true ->
  map id (tasks (exec o a)) = map id (tasks a) \/
  map id (tasks (exec o a)) =
    (map id (tasks a) ++ [Z.of_nat (List.length (tasks a)) + 1])%list.
Proof.
  destruct o as [now d|s|now s|]; simpl; try discriminate; intros _.
  - destruct (add_task_tasks now d a) as [->| ->]; [left; reflexivity|].
    right. rewrite map_app. reflexivity.
  - left. destruct (mark_completed_tasks now s a) as [->|(l1 & t & l2 & -> & ->)];
      [reflexivity|].
    rewrite !map_app. reflexivity.
Qed.

Lemma run_keeps_ids (ops : list op) (a : TodoApp) :
  forallb keeps ops = true ->
  map id (tasks a) = map Z.of_nat (seq 1 (List.length (tasks a))) ->
  map id (tasks (run ops a)) =
  map Z.of_nat (seq 1 (List.length (tasks (run ops a)))).
Proof.
  revert a. induction ops as [|o ops IH]; intros a Hk Ha; simpl; [exact Ha|].
  simpl in Hk. apply andb_true_iff in Hk. destruct Hk as [Ho Hk].
  apply IH; [exact Hk|].
  assert (Hlen : forall l : list task, List.length (map id l) = List.length l)
    by (intros l; apply length_map).
  destruct (exec_keeps_ids o a Ho) as [E|E].
  - rewrite E. rewrite <- (Hlen (tasks (exec o a))), E, Hlen. exact Ha.
  - rewrite E. rewrite <- (Hlen (tasks (exec o a))), E.
    rewrite List.length_app, Hlen. simpl List.length.
    rewrite Nat.add_1_r, seq_S, map_app, <- Ha. simpl.
    do 2 f_equal. lia.
Qed.

(** X3. As long as no task is taken out (a run of add_task and
    mark_completed calls only, from the empty store), the task at
    position k carries id k: the ids are 1, 2, ..., n in order, hence
    distinct. *)
Theorem ids_count_up_without_removal (ops : list op) :
  forallb keeps ops = true ->
  let ts := tasks (run ops empty_store) in
  map id ts = map Z.of_nat (seq 1 (List.length ts)) /\ NoDup (map id ts).
Proof.
  intros Hk ts.
  assert (H : map id ts = map Z.of_nat (seq 1 (List.length ts)))
    by (apply run_keeps_ids; [exact Hk | reflexivity]).
  split; [exact H|]. rewrite H.
  apply NoDup_map_NoDup_ForallPairs; [|apply seq_NoDup].
  intros x y _ _ E. lia.
Qed.

Lemma ids_count_up_without_removal_witness :
  map id (tasks (run [Add "t1" "a"; Complete "t2" "1"; Add "t3" "b"; Add "t4" "c"]
                     empty_store)) = [1; 2; 3].
Proof.
  exact (proj1 (ids_count_up_without_removal
                  [Add "t1" "a"; Complete "t2" "1"; Add "t3" "b"; Add "t4" "c"]
                  eq_refl)).
Defined.

(** Every id from position [k] on exceeds its position. *)
Lemma above_cons (k : nat) (t : task) (l : list task) :
  (forall i u, nth_error (t :: l) i = Some u -> Z.of_nat (k + i) < id u) <->
  Z.of_nat k < id t /\
  (forall i u, nth_error l i = Some u -> Z.of_nat (S k + i) < id u).
Proof.
  split.
  - intros H. split.
    + specialize (H 0%nat t eq_refl). rewrite Nat.add_0_r in H. exact H.
    + intros i u Hi. specialize (H (S i) u Hi).
      replace (S k + i)%nat with (k + S i)%nat by lia. exact H.
  - intros [H0 H] [|i] u Hi; simpl in Hi.
    + injection Hi as <-. rewrite Nat.add_0_r. exact H0.
    + specialize (H i u Hi). replace (k + S i)%nat with (S k + i)%nat by lia.
      exact H.
Qed.

Lemma above_weaken (k : nat) (l : list task) :
  (forall i u, nth_error l i = Some u -> Z.of_nat (S k + i) < id u) ->
  (forall i u, nth_error l i = Some u -> Z.of_nat (k + i) < id u).
Proof. intros H i u Hi. specialize (H i u Hi). lia. Qed.

Lemma above_subseq (l' l : list task) :
  subseq l' l ->
  forall k, (forall i u, nth_error l i = Some u -> Z.of_nat (k + i) < id u) ->
            (forall i u, nth_error l' i = Some u -> Z.of_nat (k + i) < id u).
Proof.
  induction 1 as [|t l' l _ IH|t l' l _ IH]; intros k H.
  - exact H.
  - apply above_cons in H. destruct H as [H0 H].
    apply above_cons. split; [exact H0 | exact (IH _ H)].
  - apply above_cons in H. destruct H as [_ H].
    apply above_weaken. exact (IH _ H).
Qed.

Lemma above_exec (o : op) (a : TodoApp) :
  (forall i u, nth_error (tasks a) i = Some u -> Z.of_nat i < id u) ->
  (forall i u, nth_error (tasks (exec o a)) i = Some u -> Z.of_nat i < id u).
Proof.
  intros H. destruct o as [now d|s|now s|]; simpl.
  - destruct (add_task_tasks now d a) as [->| ->]; [exact H|].
    intros i u Hi. destruct (Nat.lt_ge_cases i (List.length (tasks a))) as [Hlt|Hge].
    + rewrite nth_error_app1 in Hi by exact Hlt. exact (H i u Hi).
    + rewrite nth_error_app2 in Hi by exact Hge.
      destruct (i - List.length (tasks a))%nat as [|j] eqn:Ej; simpl in Hi.
      * injection Hi as <-. simpl. lia.
      * destruct j; discriminate Hi.
  - destruct (remove_task_tasks s a) as [->|(l1 & t & l2 & Hl & ->)]; [exact H|].
    rewrite Hl in H.
    exact (above_subseq _ _ (subseq_remove l1 t l2) 0%nat H).
  - destruct (mark_completed_tasks now s a) as [->|(l1 & t & l2 & Hl & ->)]; [exact H|].
    rewrite Hl in H. intros i u Hi.
    destruct (Nat.lt_ge_cases i (List.length l1)) as [Hlt|Hge].
    + rewrite nth_error_app1 in Hi by exact Hlt.
      apply (H i u). rewrite nth_error_app1 by exact Hlt. exact Hi.
    + rewrite nth_error_app2 in Hi by exact Hge.
      destruct (i - List.length l1)%nat as [|j] eqn:Ej.
      * simpl in Hi. injection Hi as <-. simpl.
        apply (H i t). rewrite nth_error_app2 by exact Hge. rewrite Ej. reflexivity.
      * apply (H i u). rewrite nth_error_app2 by exact Hge. rewrite Ej. exact Hi.
  - rewrite clear_completed_tasks.
    exact (above_subseq _ _ (subseq_filter pending (tasks a)) 0%nat H).
Qed.

(** X4. In every reachable store the id of a task is at least its
    position in the sequence counted from 1; in particular every id is
    positive. *)
Theorem ids_above_position (a : TodoApp) :
  reachable a ->
  forall i t, nth_error (tasks a) i = Some t -> Z.of_nat i + 1 <= id t.
Proof.
  intros Ha.
  assert (H : forall i u, nth_error (tasks a) i = Some u -> Z.of_nat i < id u).
  { induction Ha as [|o a _ IH].
    - intros [|i] u Hi; discriminate Hi.
    - apply above_exec. exact IH. }
  intros i t Hi. specialize (H i t Hi). lia.
Qed.

Lemma ids_above_position_witness :
  let a := run [Add "t1" "a"; Add "t2" "b"; Add "t3" "c"; Remove "1"] empty_store in
  nth_error (tasks a) 1 = Some (mkTask 3 "c" false "t3" None) /\
  Z.of_nat 1 + 1 <= 3.
Proof.
  split; [reflexivity|].
  exact (ids_above_position
           (run [Add "t1" "a"; Add "t2" "b"; Add "t3" "c"; Remove "1"] empty_store)
           (reachable_run _ _ reach_empty) 1%nat (mkTask 3 "c" false "t3" None)
           eq_refl).
Defined.

(** ** The listings *)

Lemma entries_app (l1 l2 : list line) :
  entries (l1 ++ l2)%list = (entries l1 ++ entries l2)%list.
Proof.
  induction l1 as [|x l1 IH]; [reflexivity|].
  destruct x; simpl; rewrite IH; reflexivity.
Qed.

Lemma entries_pending_lines (l : list task) :
  Forall (fun t => completed t = false) l ->
  entries (flat_map pending_lines l) = map entry_of l.
Proof.
  induction 1 as [|t l Ht _ IH]; [reflexivity|].
  simpl. rewrite IH. unfold entry_of. rewrite Ht. reflexivity.
Qed.

Lemma entries_completed_lines (l : list task) :
  Forall (fun t => completed t = true) l ->
  entries (flat_map completed_lines l) = map entry_of l.
Proof.
  induction 1 as [|t l Ht _ IH]; [reflexivity|].
  simpl. rewrite IH. unfold entry_of. rewrite Ht. reflexivity.
Qed.

Lemma entries_pending_only_lines (l : list task) :
  Forall (fun t => completed t = false) l ->
  entries (flat_map (fun t => [PendingOnlyEntry (id t) (description t);
                               CreatedLine (created_at t)]) l) = map entry_of l.
Proof.
  induction 1 as [|t l Ht _ IH]; [reflexivity|].
  simpl. rewrite IH. unfold entry_of. rewrite Ht. reflexivity.
Qed.

Lemma filter_pending_false (l : list task) :
  Forall (fun t => completed t = false) (filter pending l).
Proof.
  apply Forall_forall. intros t Ht. apply filter_In in Ht.
  destruct Ht as [_ Ht]. unfold pending in Ht. apply negb_true_iff. exact Ht.
Qed.

Lemma filter_completed_true (l : list task) :
  Forall (fun t => completed t = true) (filter completed l).
Proof.
  apply Forall_forall. intros t Ht. apply filter_In in Ht. apply Ht.
Qed.

Lemma pending_completed_permutation (l : list task) :
  Permutation l (filter pending l ++ filter completed l)%list.
Proof.
  induction l as [|t l IH]; simpl; [constructor|].
  unfold pending at 1. destruct (completed t); simpl.
  - apply Permutation_cons_app. exact IH.
  - constructor. exact IH.
Qed.

Lemma entries_view_tasks (sc : bool) (a : TodoApp) :
  entries (view_tasks sc a) =
  (map entry_of (filter pending (tasks a))
   ++ if sc then map entry_of (filter completed (tasks a)) else [])%list.
Proof.
  unfold view_tasks. destruct (tasks a) as [|t0 l0] eqn:Et.
  - destruct sc; reflexivity.
  - rewrite <- Et. clear Et t0 l0.
    rewrite !entries_app.
    pose proof (entries_pending_lines _ (filter_pending_false (tasks a))) as Hp.
    pose proof (entries_completed_lines _ (filter_completed_true (tasks a))) as Hc.
    destruct (filter pending (tasks a)) as [|p ps];
      destruct (filter completed (tasks a)) as [|c cs];
      destruct sc; cbn [entries app map]; rewrite ?List.app_nil_r;
      try reflexivity.
    all: cbn [entries] in Hp, Hc; rewrite ?Hp, ?Hc, ?List.app_nil_r; reflexivity.
Qed.

(** X6. view_tasks lists every task of the store exactly once, the
    pending ones first and then the completed ones, each group in store
    order; with show_completed off it lists the pending tasks only.  On
    a store with tasks its last line counts the pending and the
    completed tasks, and the two counts add up to the number in its
    header, whether or not the completed tasks are listed. *)
Theorem view_tasks_lists_each_task_once (a : TodoApp) :
  Permutation (map entry_of (tasks a)) (entries (view_tasks true a)) /\
  entries (view_tasks true a) =
    (map entry_of (filter pending (tasks a))
     ++ map entry_of (filter completed (tasks a)))%list /\
  entries (view_tasks false a) = map entry_of (filter pending (tasks a)) /\
  forall sc,
    (tasks a = [] /\ view_tasks sc a = [EmptyListNotice]) \/
    exists body p c,
      view_tasks sc a =
        (ListHeader (List.length (tasks a)) :: Rule 60 :: body
         ++ [Rule 60; SummaryLine p c])%list /\
      p = List.length (filter pending (tasks a)) /\
      c = List.length (filter completed (tasks a)) /\
      (p + c = List.length (tasks a))%nat.
Proof.
  rewrite !entries_view_tasks, List.app_nil_r. split; [|split; [|split]].
  - rewrite <- map_app. apply Permutation_map. apply pending_completed_permutation.
  - reflexivity.
  - reflexivity.
  - intros sc. unfold view_tasks. destruct (tasks a) as [|t0 l0] eqn:Et.
    + left. split; reflexivity.
    + right. rewrite <- Et.
      exists (match filter pending (tasks a) with
              | [] => []
              | _ => PendingHeading :: flat_map pending_lines (filter pending (tasks a))
              end
              ++ match filter completed (tasks a) with
                 | [] => []
                 | _ =>
                     if sc
                     then CompletedHeading
                          :: flat_map completed_lines (filter completed (tasks a))
                     else []
                 end)%list.
      eexists _, _. split; [|split; [reflexivity|split; [reflexivity|]]].
      * rewrite <- List.app_assoc. reflexivity.
      * symmetry. apply filter_split_length.
Qed.

(** X7. view_pending_only prints the all-caught-up notice exactly when
    no task of the store is pending (an empty store included);
    otherwise its header gives the number of pending tasks and it lists
    exactly the pending tasks, in store order. *)
Theorem view_pending_only_spec (a : TodoApp) :
  (view_pending_only a = [CaughtUpNotice] <->
   forall t, In t (tasks a) -> completed t = true) /\
  entries (view_pending_only a) = map entry_of (filter pending (tasks a)) /\
  (forall n, In (PendingOnlyHeader n) (view_pending_only a) ->
             n = List.length (filter pending (tasks a)) /\ (0 < n)%nat).
Proof.
  unfold view_pending_only.
  pose proof (entries_pending_only_lines _ (filter_pending_false (tasks a))) as He.
  split; [|split].
  - split.
    + intros H t Ht. destruct (completed t) eqn:E; [reflexivity|].
      assert (Hin : In t (filter pending (tasks a)))
        by (apply filter_In; split; [exact Ht | unfold pending; rewrite E; reflexivity]).
      destruct (filter pending (tasks a)); [contradiction Hin | discriminate H].
    + intros H. destruct (filter pending (tasks a)) as [|p ps] eqn:E; [reflexivity|].
      assert (Hin : In p (filter pending (tasks a))) by (rewrite E; left; reflexivity).
      apply filter_In in Hin. destruct Hin as [Hin Hp].
      unfold pending in Hp. rewrite (H p Hin) in Hp. discriminate Hp.
  - destruct (filter pending (tasks a)) as [|p ps]; [reflexivity|].
    rewrite !entries_app, He. cbn [entries app].
    apply List.app_nil_r.
  - intros n Hin.
    assert (Hno : forall l,
               ~ In (PendingOnlyHeader n)
                    (flat_map (fun t => [PendingOnlyEntry (id t) (description t);
                                         CreatedLine (created_at t)]) l
                     ++ [Rule 40])%list).
    { intros l H. apply in_app_or in H. destruct H as [H|H].
      - apply in_flat_map in H. destruct H as (t & _ & H).
        simpl in H. intuition discriminate.
      - simpl in H. intuition discriminate. }
    destruct (filter pending (tasks a)) as [|p ps].
    + simpl in Hin. intuition discriminate.
    + change (In (PendingOnlyHeader n)
                 (PendingOnlyHeader (List.length (p :: ps)) :: Rule 40
                  :: (flat_map (fun t => [PendingOnlyEntry (id t) (description t);
                                          CreatedLine (created_at t)]) (p :: ps)
                      ++ [Rule 40]))%list) in Hin.
      destruct Hin as [H|Hin].
      * injection H as <-. split; [reflexivity | simpl; lia].
      * destruct Hin as [H|Hin]; [discriminate H|].
        exfalso. exact (Hno _ Hin).
Qed.

(** ** Statistics *)

Lemma rate_bounds (d t : Z) :
  0 <= d <= t -> 0 < t ->
  (0 <= inject_Z d / inject_Z t * 100)%Q /\
  (inject_Z d / inject_Z t * 100 <= 100)%Q.
Proof.
  intros Hd Ht. destruct t as [|p|p]; try lia.
  unfold Qdiv, Qinv, Qmult, Qle, inject_Z. simpl.
  split; nia.
Qed.

(** X8. On a store with at least one task show_stats prints the number
    of tasks, of completed tasks and of pending tasks, which add up,
    and a completion rate (here the exact value of completed / total *
    100) that lies between 0 and 100; it does not fail. *)
Theorem show_stats_figures (a : TodoApp) :
  tasks a <> [] ->
  let total := List.length (tasks a) in
  let done := List.length (filter completed (tasks a)) in
  let pend := List.length (filter pending (tasks a)) in
  exists rate,
    show_stats a = Some [Statistics total done pend rate] /\
    (done + pend = total)%nat /\
    (rate == inject_Z (Z.of_nat done) / inject_Z (Z.of_nat total) * 100)%Q /\
    (0 <= rate)%Q /\ (rate <= 100)%Q.
Proof.
  intros Hne total done pend.
  assert (Hsum : (done + pend = total)%nat)
    by (subst total done pend; rewrite (filter_split_length (tasks a)); lia).
  assert (Hpos : (0 < total)%nat)
    by (subst total; destruct (tasks a); [contradiction Hne; reflexivity | simpl; lia]).
  exists (Qred (inject_Z (Z.of_nat done) / inject_Z (Z.of_nat total) * 100)).
  destruct (rate_bounds (Z.of_nat done) (Z.of_nat total)) as [H0 H100]; [lia | lia |].
  split; [|split; [exact Hsum | split; [apply Qred_correct|split]]].
  - unfold show_stats. fold total done.
    destruct (tasks a) as [|t0 l0]; [contradiction Hne; reflexivity|].
    apply Nat.ltb_lt in Hpos. rewrite Hpos. unfold truediv.
    destruct (Z.eqb_spec (Z.of_nat total) 0) as [E|_]; [apply Nat.ltb_lt in Hpos; lia|].
    replace (total - done)%nat with pend by lia. reflexivity.
  - rewrite Qred_correct. exact H0.
  - rewrite Qred_correct. exact H100.
Qed.

Lemma show_stats_figures_witness :
  exists rate,
    show_stats (run [Add "t1" "a"; Add "t2" "b"; Add "t3" "c"; Complete "t4" "2"]
                    empty_store)
      = Some [Statistics 3 1 2 rate] /\
    (1 + 2 = 3)%nat /\
    (rate == inject_Z 1 / inject_Z 3 * 100)%Q /\
    (0 <= rate)%Q /\ (rate <= 100)%Q.
Proof.
  apply (show_stats_figures
           (run [Add "t1" "a"; Add "t2" "b"; Add "t3" "c"; Complete "t4" "2"]
                empty_store)).
  discriminate.
Defined.

(** ** When remove_task and mark_completed succeed *)

Lemma find_task_found (n : Z) (l : list task) :
  (exists t, In t l /\ id t = n) ->
  exists l1 t l2, l = (l1 ++ t :: l2)%list /\ id t = n /\
                  (forall u, In u l1 -> id u <> n).
Proof.
  intros H. destruct (find_task n 0 l) as [[i t]|] eqn:E.
  - destruct (find_task_some _ _ _ _ _ E) as (l1 & l2 & Hl & Ht & Hl1 & _).
    exists l1, t, l2. auto.
  - destruct H as (t & Hin & Ht). exfalso.
    exact (find_task_absent _ _ _ E t Hin Ht).
Qed.

Lemma remove_task_result (s : string) (a : TodoApp) :
  (ret (remove_task s a) = false /\ app (remove_task s a) = a /\
   (py_int s = None \/
    exists n, py_int s = Some n /\ forall t, In t (tasks a) -> id t <> n)) \/
  (ret (remove_task s a) = true /\
   exists n l1 t l2, py_int s = Some n /\ tasks a = (l1 ++ t :: l2)%list /\
                     id t = n /\ (forall u, In u l1 -> id u <> n) /\
                     app (remove_task s a) = save_tasks (mkApp (l1 ++ l2)%list (file a))).
Proof.
  unfold remove_task. destruct (py_int s) as [n|]; [|left; auto].
  destruct (find_task n 0 (tasks a)) as [[i t]|] eqn:E.
  - destruct (find_task_some _ _ _ _ _ E) as (l1 & l2 & Hl & Ht & Hl1 & ->).
    right. rewrite Hl. simpl. rewrite pop_middle. simpl.
    split; [reflexivity|]. exists n, l1, t, l2. auto.
  - left. simpl. repeat split. right. exists n. split; [reflexivity|].
    exact (find_task_absent _ _ _ E).
Qed.

Lemma mark_completed_result (now s : string) (a : TodoApp) :
  (ret (mark_completed now s a) = false /\ app (mark_completed now s a) = a /\
   (py_int s = None \/
    exists n, py_int s = Some n /\ forall t, In t (tasks a) -> id t <> n)) \/
  (ret (mark_completed now s a) = true /\
   exists n l1 t l2, py_int s = Some n /\ tasks a = (l1 ++ t :: l2)%list /\
                     id t = n /\ (forall u, In u l1 -> id u <> n) /\
                     app (mark_completed now s a) =
                       save_tasks (mkApp (l1 ++ set_completed now t :: l2)%list (file a))).
Proof.
  unfold mark_completed. destruct (py_int s) as [n|]; [|left; auto].
  destruct (complete_first now n (tasks a)) as [[r u]|] eqn:E.
  - destruct (complete_first_some _ _ _ _ _ E) as (l1 & t & l2 & Hl & Ht & Hl1 & -> & ->).
    right. simpl. split; [reflexivity|]. exists n, l1, t, l2. auto.
  - left. simpl. repeat split. right. exists n. split; [reflexivity|].
    intros t Hin Ht.
    destruct (find_task_found n (tasks a) (ex_intro _ t (conj Hin Ht)))
      as (l1 & t' & l2 & Hl & Ht' & Hl1).
    rewrite Hl, (complete_first_match now n l1 t' l2 Ht' Hl1) in E. discriminate E.
Qed.

(** X9. remove_task returns True exactly when int() accepts the text
    and some task of the store carries that id; whenever it returns
    False, the tasks and the file are as before. *)
Theorem remove_task_succeeds_iff (s : string) (a : TodoApp) :
  (ret (remove_task s a) = true <->
   exists n t, py_int s = Some n /\ In t (tasks a) /\ id t = n) /\
  (ret (remove_task s a) = false -> app (remove_task s a) = a).
Proof.
  destruct (remove_task_result s a)
    as [(Hr & Ha & Hwhy)|(Hr & n & l1 & t & l2 & Hs & Hl & Ht & _)];
    rewrite Hr; split.
  - split; [discriminate|]. intros (n & t & Hs & Hin & Ht). exfalso.
    destruct Hwhy as [E|(m & E & Hnone)]; rewrite E in Hs; [discriminate Hs|].
    injection Hs as <-. exact (Hnone t Hin Ht).
  - intros _. exact Ha.
  - split; [|reflexivity]. intros _. exists n, t. split; [exact Hs|].
    split; [|exact Ht]. rewrite Hl. apply in_or_app. right. left. reflexivity.
  - discriminate.
Qed.

(** X10. mark_completed returns True exactly when int() accepts the
    text and some task of the store carries that id, whether or not
    that task is completed already; whenever it returns False, the tasks
    and the file are as before. *)
Theorem mark_completed_succeeds_iff (now s : string) (a : TodoApp) :
  (ret (mark_completed now s a) = true <->
   exists n t, py_int s = Some n /\ In t (tasks a) /\ id t = n) /\
  (ret (mark_completed now s a) = false -> app (mark_completed now s a) = a).
Proof.
  destruct (mark_completed_result now s a)
    as [(Hr & Ha & Hwhy)|(Hr & n & l1 & t & l2 & Hs & Hl & Ht & _)];
    rewrite Hr; split.
  - split; [discriminate|]. intros (n & t & Hs & Hin & Ht). exfalso.
    destruct Hwhy as [E|(m & E & Hnone)]; rewrite E in Hs; [discriminate Hs|].
    injection Hs as <-. exact (Hnone t Hin Ht).
  - intros _. exact Ha.
  - split; [|reflexivity]. intros _. exists n, t. split; [exact Hs|].
    split; [|exact Ht]. rewrite Hl. apply in_or_app. right. left. reflexivity.
  - discriminate.
Qed.


(** ** Calls in sequence *)

(** X12. Removing, right after an add_task that succeeded, the id that
    the new task was given undoes the addition only if no task already
    carried that id; if one did, the first such task is removed instead
    and the new task stays. *)
Theorem remove_after_add (now d s : string) (a : TodoApp) :
  strip d <> EmptyString ->
  py_int s = Some (Z.of_nat (List.length (tasks a)) + 1) ->
  let new := mkTask (Z.of_nat (List.length (tasks a)) + 1) (strip d) false now None in
  let r := remove_task s (app (add_task now d a)) in
  ret r = true /\
  ((forall t, In t (tasks a) -> id t <> id new) -> tasks (app r) = tasks a) /\
  (forall l1 t l2, tasks a = (l1 ++ t :: l2)%list -> id t = id new ->
                   (forall u, In u l1 -> id u <> id new) ->
                   tasks (app r) = (l1 ++ l2 ++ [new])%list).
Proof.
  intros Hd Hs new r. subst r. unfold add_task.
  apply nonempty_true in Hd. rewrite Hd. cbn [negb app]. fold new.
  unfold remove_task. rewrite Hs. cbn [save_tasks tasks file].
  assert (Hnew : id new = Z.of_nat (List.length (tasks a)) + 1) by reflexivity.
  rewrite <- Hnew.
  assert (Hfirst : forall l1 t l2,
             tasks a = (l1 ++ t :: l2)%list -> id t = id new ->
             (forall u, In u l1 -> id u <> id new) ->
             find_task (id new) 0 (tasks a ++ [new]) =
               Some (List.length l1, t) /\
             pop (List.length l1) (tasks a ++ [new]) =
               Some (t, (l1 ++ l2 ++ [new])%list)).
  { intros l1 t l2 Hl Ht Hl1. rewrite Hl, <- List.app_assoc. cbn [List.app].
    rewrite (find_task_first (id new) l1 t (l2 ++ [new]) 0 Ht Hl1), pop_middle.
    split; reflexivity. }
  destruct (find_task (id new) 0 (tasks a)) as [[i t]|] eqn:E.
  - destruct (find_task_some _ _ _ _ _ E) as (l1 & l2 & Hl & Ht & Hl1 & _).
    destruct (Hfirst l1 t l2 Hl Ht Hl1) as [Hf Hp]. rewrite Hf, Hp. cbn.
    split; [reflexivity|]. split.
    + intros Hnone. exfalso. apply (Hnone t); [|exact Ht].
      rewrite Hl. apply in_or_app. right. left. reflexivity.
    + intros l1' t' l2' Hl' Ht' Hl1'.
      destruct (Hfirst l1' t' l2' Hl' Ht' Hl1') as [Hf' Hp'].
      rewrite Hf in Hf'. injection Hf' as Hlen <-.
      rewrite Hlen in Hp. rewrite Hp in Hp'. injection Hp' as <-. reflexivity.
  - pose proof (find_task_absent _ _ _ E) as Hnone.
    rewrite (find_task_first (id new) (tasks a) new [] 0 eq_refl Hnone).
    cbn [Nat.add]. rewrite pop_middle. cbn.
    split; [reflexivity|]. split.
    + intros _. apply List.app_nil_r.
    + intros l1 t l2 Hl Ht _. exfalso. apply (Hnone t); [|exact Ht].
      rewrite Hl. apply in_or_app. right. left. reflexivity.
Qed.

Lemma remove_after_add_witness :
  let a := run [Add "t1" "a"; Add "t2" "b"; Add "t3" "c"; Remove "1"] empty_store in
  map description (tasks (app (remove_task "3" (app (add_task "t4" "d" a)))))
  = ["b"; "d"].
Proof.
  set (a := run [Add "t1" "a"; Add "t2" "b"; Add "t3" "c"; Remove "1"] empty_store).
  assert (Hd : strip "d" <> EmptyString) by discriminate.
  assert (Hl1 : forall u, In u [mkTask 2 "b" false "t2" None] -> id u <> 3)
    by (intros u [<-|[]]; discriminate).
  exact (f_equal (map description)
           (proj2 (proj2 (remove_after_add "t4" "d" "3" a Hd eq_refl))
              [mkTask 2 "b" false "t2" None] (mkTask 3 "c" false "t3" None) []
              eq_refl eq_refl Hl1)).
Defined.

Lemma filter_pending_id (l : list task) :
  (forall t, In t l -> completed t = false) -> filter pending l = l.
Proof.
  induction l as [|t l IH]; intros H; simpl; [reflexivity|].
  unfold pending at 1. rewrite (H t) by (left; reflexivity). simpl.
  rewrite IH; [reflexivity|]. intros u Hu. apply H. right. exact Hu.
Qed.

Lemma filter_completed_none (l : list task) :
  (forall t, In t l -> completed t = false) -> filter completed l = [].
Proof.
  induction l as [|t l IH]; intros H; simpl; [reflexivity|].
  rewrite (H t) by (left; reflexivity).
  apply IH. intros u Hu. apply H. right. exact Hu.
Qed.

(** X13. On a store where no task is completed, marking a task as
    completed by its id and then clearing the completed tasks leaves
    the same tasks as removing that id: clear_completed reports one
    task cleared, the one just completed. *)
Theorem complete_then_clear_is_remove (now s : string) (a : TodoApp) :
  (forall t, In t (tasks a) -> completed t = false) ->
  ret (mark_completed now s a) = true ->
  let r := clear_completed (app (mark_completed now s a)) in
  out r = [Cleared 1] /\
  ret (remove_task s a) = true /\
  tasks (app r) = tasks (app (remove_task s a)).
Proof.
  intros Hall Hret r. subst r.
  destruct (mark_completed_result now s a)
    as [(Hr & _)|(_ & n & l1 & t & l2 & Hs & Hl & Ht & Hl1 & Ha)];
    [rewrite Hr in Hret; discriminate Hret|].
  rewrite Ha. unfold remove_task. rewrite Hs, Hl.
  rewrite (find_task_first n l1 t l2 0 Ht Hl1). cbn [fst Nat.add].
  rewrite pop_middle. cbn [ret app tasks save_tasks].
  assert (H1 : forall u, In u l1 -> completed u = false)
    by (intros u Hu; apply Hall; rewrite Hl; apply in_or_app; left; exact Hu).
  assert (H2 : forall u, In u l2 -> completed u = false)
    by (intros u Hu; apply Hall; rewrite Hl; apply in_or_app; right; right; exact Hu).
  unfold clear_completed. cbn [tasks save_tasks file].
  rewrite !filter_app. cbn [filter]. unfold pending at 2. cbn [completed set_completed negb].
  rewrite (filter_completed_none l1 H1), (filter_completed_none l2 H2).
  rewrite (filter_pending_id l1 H1), (filter_pending_id l2 H2).
  cbn. repeat split.
Qed.

Lemma complete_then_clear_is_remove_witness :
  let a := run [Add "t1" "a"; Add "t2" "b"; Add "t3" "c"] empty_store in
  tasks (app (clear_completed (app (mark_completed "t4" "2" a)))) =
  tasks (app (remove_task "2" a)).
Proof.
  set (a := run [Add "t1" "a"; Add "t2" "b"; Add "t3" "c"] empty_store).
  assert (H : forall t, In t (tasks a) -> completed t = false)
    by (intros t [<-|[<-|[<-|[]]]]; reflexivity).
  exact (proj2 (proj2 (complete_then_clear_is_remove "t4" "2" a H eq_refl))).
Defined.

(** ** Loading *)

(** X14. load_tasks prints its warning exactly when the file exists,
    its content is not blank and json.loads rejects the stripped content
    with JSONDecodeError; the store then starts from the empty list.
    Whenever load_tasks ends with a task list the file is as it was and
    nothing but that warning was printed.  A missing file, and a file
    that holds nothing but whitespace, give the empty list without a
    warning.  So a list cut short after a float gives the warning and
    the empty list, whereas a dict, a number and a list that holds a
    float are decoded and kept as they are, without a print, and a text
    of a thousand opening brackets is beyond the depth down to which the
    decoder is followed. *)
Theorem load_tasks_edges :
  (forall a b, load_tasks a = Loaded b [LoadWarning] <->
     (exists raw, file a = Some raw /\ strip raw <> EmptyString /\
                  json_loads (strip raw) = JSONDecodeError) /\
     b = mkApp [] (file a)) /\
  (forall a b printed, load_tasks a = Loaded b printed ->
     file b = file a /\ (printed = [] \/ printed = [LoadWarning])) /\
  (forall ts, load_tasks (mkApp ts None) = Loaded (mkApp [] None) []) /\
  (forall ts raw, strip raw = EmptyString ->
     load_tasks (mkApp ts (Some raw)) = Loaded (mkApp [] (Some raw)) []) /\
  load_tasks (mkApp [] (Some "[1.5")) = Loaded (mkApp [] (Some "[1.5")) [LoadWarning] /\
  load_tasks (mkApp [] (Some "{}")) = Untyped (DDict []) /\
  load_tasks (mkApp [] (Some "7")) = Untyped (DInt 7) /\
  load_tasks (mkApp [] (Some "[1.5]")) = Untyped (DList [DOther]) /\
  load_tasks (mkApp [] (Some (opened 1000))) = Unfollowed.
Proof.
  split; [|split; [|split; [|split]]].
  - intros a b. unfold load_tasks. split.
    + destruct (file a) as [raw|]; [|discriminate].
      destruct (nonempty (strip raw)) eqn:E; [|discriminate].
      destruct (json_loads (strip raw)) as [v| | | |] eqn:J; try discriminate.
      * destruct (tasks_of_py v); discriminate.
      * intros [= <-]. split; [|reflexivity].
        exists raw. split; [reflexivity|]. split; [|exact J].
        intros H. rewrite H in E. discriminate E.
    + intros [(raw & Hf & Hne & J) ->]. rewrite Hf.
      apply nonempty_true in Hne. rewrite Hne, J. reflexivity.
  - intros a b printed. unfold load_tasks. destruct (file a) as [raw|].
    + destruct (nonempty (strip raw)).
      * destruct (json_loads (strip raw)) as [v| | | |]; try discriminate.
        -- destruct (tasks_of_py v); [|discriminate].
           intros [= <- <-]. split; [reflexivity | left; reflexivity].
        -- intros [= <- <-]. split; [reflexivity | right; reflexivity].
      * intros [= <- <-]. split; [reflexivity | left; reflexivity].
    + intros [= <- <-]. split; [reflexivity | left; reflexivity].
  - reflexivity.
  - intros ts raw H. unfold load_tasks. cbn [file]. rewrite H. reflexivity.
  - repeat split; vm_compute; reflexivity.
Qed.

(** ** A round of the menu loop *)

Lemma turn_cases (now : string) (keys : list key) (a : TodoApp) :
  after (turn now keys a) = a \/
  exists o, after (turn now keys a) = exec o a /\ go_on (turn now keys a) = true.
Proof.
  unfold turn, ask.
  destruct keys as [|[c|] ks]; [left; reflexivity | | left; reflexivity].
  destruct (strip c =? "1")%string.
  { destruct ks as [|[d|] ks']; [left; reflexivity | | left; reflexivity].
    destruct (nonempty (strip d)); [|left; reflexivity].
    right. exists (Add now (strip d)). split; reflexivity. }
  destruct (strip c =? "2")%string; [left; reflexivity|].
  destruct (strip c =? "3")%string; [left; reflexivity|].
  destruct (strip c =? "4")%string.
  { destruct (existsb pending (tasks a)); [|left; reflexivity].
    destruct ks as [|[d|] ks']; [left; reflexivity | | left; reflexivity].
    right. exists (Complete now (strip d)). split; reflexivity. }
  destruct (strip c =? "5")%string.
  { destruct (tasks a); [left; reflexivity|].
    destruct ks as [|[d|] ks']; [left; reflexivity | | left; reflexivity].
    right. exists (Remove (strip d)). split; reflexivity. }
  destruct (strip c =? "6")%string.
  { right. exists ClearCompleted. split; reflexivity. }
  destruct (strip c =? "7")%string.
  { destruct (show_stats a); left; reflexivity. }
  destruct (strip c =? "8")%string; [left; reflexivity|].
  destruct (strip c =? "9")%string; left; reflexivity.
Qed.

Lemma turn_one_call (now : string) (keys : list key) (a : TodoApp) :
  one_call now keys a (turn now keys a).
Proof.
  unfold one_call, turn, ask.
  destruct keys as [|[c|] ks]; [left; reflexivity | | left; reflexivity].
  destruct (String.eqb_spec (strip c) "1") as [H1|_].
  { destruct ks as [|[d|] ks']; [left; reflexivity | | left; reflexivity].
    destruct (nonempty (strip d)) eqn:E; [|left; reflexivity].
    right. left. exists c, d, ks'. repeat split. left.
    split; [exact H1|]. split; [apply nonempty_true; exact E | reflexivity]. }
  destruct (strip c =? "2")%string; [left; reflexivity|].
  destruct (strip c =? "3")%string; [left; reflexivity|].
  destruct (String.eqb_spec (strip c) "4") as [H4|_].
  { destruct (existsb pending (tasks a)); [|left; reflexivity].
    destruct ks as [|[d|] ks']; [left; reflexivity | | left; reflexivity].
    right. left. exists c, d, ks'. repeat split. right. left.
    split; [exact H4 | reflexivity]. }
  destruct (String.eqb_spec (strip c) "5") as [H5|_].
  { destruct (tasks a) eqn:Et; [left; reflexivity|].
    destruct ks as [|[d|] ks']; [left; reflexivity | | left; reflexivity].
    right. left. exists c, d, ks'. repeat split. right. right.
    split; [exact H5 | reflexivity]. }
  destruct (String.eqb_spec (strip c) "6") as [H6|_].
  { right. right. exists c, ks. repeat split. exact H6. }
  destruct (strip c =? "7")%string.
  { destruct (show_stats a); left; reflexivity. }
  destruct (strip c =? "8")%string; [left; reflexivity|].
  destruct (strip c =? "9")%string; left; reflexivity.
Qed.

(** X15. Whatever is typed, a round of the menu loop either leaves the
    store as it was or makes exactly one call on it, the one the choice
    stands for: add_task on choice 1 with the description typed,
    stripped and not blank; mark_completed on choice 4 and remove_task
    on choice 5 with the id typed, stripped; clear_completed on choice
    6.  So a round takes a reachable store to a reachable store, and
    what holds of every reachable store holds throughout a session. *)
Theorem turn_reachable (now : string) (keys : list key) (a : TodoApp) :
  one_call now keys a (turn now keys a) /\
  (reachable a -> reachable (after (turn now keys a))).
Proof.
  split; [apply turn_one_call|].
  intros Ha. destruct (turn_cases now keys a) as [->|(o & -> & _)].
  - exact Ha.
  - apply reach_step. exact Ha.
Qed.

Lemma turn_reachable_witness :
  reachable (after (turn "t2" [Line " 1 "; Line "  pay bills "]
                         (run [Add "t1" "buy milk"] empty_store))).
Proof.
  apply (proj2 (turn_reachable "t2" [Line " 1 "; Line "  pay bills "]
                  (run [Add "t1" "buy milk"] empty_store))).
  apply reachable_run. apply reach_empty.
Defined.

(** X16. Choice 1 of the menu strips what is typed before it calls
    add_task: a blank description is refused by the menu itself and the
    store stays as it was; any other is added, stripped, as the last
    task, and the confirmation shows the description as it is stored.
    The empty-description error of add_task is never printed. *)
Theorem turn_add (now c d : string) (ks : list key) (a : TodoApp) :
  strip c = "1" ->
  let r := turn now (Line c :: Line d :: ks) a in
  go_on r = true /\ unread r = ks /\
  ~ In (Said EmptyDescriptionError) (shown r) /\
  (strip d = EmptyString ->
     after r = a /\ shown r = [MenuShown; BlankDescription]) /\
  (strip d <> EmptyString ->
     tasks (after r) =
       (tasks a ++ [mkTask (Z.of_nat (List.length (tasks a)) + 1)
                           (strip d) false now None])%list /\
     shown r = [MenuShown; Said (TaskAdded (strip d))]).
Proof.
  intros Hc r. subst r. unfold turn, ask. rewrite Hc.
  change ("1" =? "1")%string with true. cbv iota.
  destruct (nonempty (strip d)) eqn:E.
  - unfold add_task. rewrite strip_idempotent, E. cbn.
    split; [reflexivity|]. split; [reflexivity|].
    split; [intros [H|[H|[]]]; discriminate H|]. split.
    + intros H. rewrite H in E. discriminate E.
    + intros _. split; reflexivity.
  - cbn. split; [reflexivity|]. split; [reflexivity|].
    split; [intros [H|[H|[]]]; discriminate H|]. split.
    + intros _. split; reflexivity.
    + intros H. apply nonempty_true in H. rewrite H in E. discriminate E.
Qed.

Lemma turn_add_witness :
  let r := turn "t1" [Line " 1"; Line "  buy milk  "] empty_store in
  tasks (after r) = [mkTask 1 "buy milk" false "t1" None] /\
  shown r = [MenuShown; Said (TaskAdded "buy milk")].
Proof.
  assert (Hd : strip "  buy milk  " <> EmptyString) by discriminate.
  exact (proj2 (proj2 (proj2 (proj2
           (turn_add "t1" " 1" "  buy milk  " [] empty_store eq_refl)))) Hd).
Defined.

Lemma exit_keys (c : string) (ks : list key) (a : TodoApp) :
  (exists ks0, Line c :: ks = Interrupt :: ks0) \/
  (exists c0 ks0, Line c :: ks = Line c0 :: ks0 /\ strip c0 = "9") \/
  (exists c0 ks0, Line c :: ks = Line c0 :: Interrupt :: ks0 /\
                  asks_again (strip c0) a = true) <->
  strip c = "9" \/
  ((exists ks0, ks = Interrupt :: ks0) /\ asks_again (strip c) a = true).
Proof.
  split.
  - intros [(ks0 & H)|[(c0 & ks0 & H & H9)|(c0 & ks0 & H & Ha)]].
    + discriminate H.
    + injection H as <- _. left. exact H9.
    + injection H as <- ->. right. split; [exists ks0; reflexivity | exact Ha].
  - intros [H9|[(ks0 & ->) Ha]].
    + right. left. exists c, ks. split; [reflexivity | exact H9].
    + right. right. exists c, ks0. split; [reflexivity | exact Ha].
Qed.

Ltac goes_on :=
  split;
  [ discriminate
  | let H := fresh in let H' := fresh in
    intros [H|[[? H] H']];
    first [discriminate H | discriminate H' | contradiction] ].

Ltac stops :=
  split;
  [ intros _; first [ left; reflexivity
                    | right; split; [eexists; reflexivity | reflexivity] ]
  | reflexivity ].

Lemma turn_go_on (now : string) (keys : list key) (a : TodoApp) :
  go_on (turn now keys a) = false <->
  (exists ks, keys = Interrupt :: ks) \/
  (exists c ks, keys = Line c :: ks /\ strip c = "9") \/
  (exists c ks, keys = Line c :: Interrupt :: ks /\ asks_again (strip c) a = true).
Proof.
  destruct keys as [|[c|] ks].
  - split; [discriminate|].
    intros [(ks & H)|[(c & ks & H & _)|(c & ks & H & _)]]; discriminate H.
  - rewrite exit_keys. unfold turn, ask, asks_again.
    generalize (strip c). intros s.
    destruct (String.eqb_spec s "1") as [->|N1].
    { cbv [String.eqb Ascii.eqb Bool.eqb orb andb].
      destruct ks as [|[d|] ks']; [goes_on | | stops].
      destruct (nonempty (strip d)); goes_on. }
    destruct (String.eqb_spec s "2") as [->|N2]; [goes_on|].
    destruct (String.eqb_spec s "3") as [->|N3]; [goes_on|].
    destruct (String.eqb_spec s "4") as [->|N4].
    { cbv [String.eqb Ascii.eqb Bool.eqb orb andb].
      destruct (existsb pending (tasks a)); [|goes_on].
      destruct ks as [|[d|] ks']; [goes_on | goes_on | stops]. }
    destruct (String.eqb_spec s "5") as [->|N5].
    { cbv [String.eqb Ascii.eqb Bool.eqb orb andb].
      destruct (tasks a); [goes_on|].
      destruct ks as [|[d|] ks']; [goes_on | goes_on | stops]. }
    destruct (String.eqb_spec s "6") as [->|N6]; [goes_on|].
    destruct (String.eqb_spec s "7") as [->|N7];
      [destruct (show_stats a); goes_on|].
    destruct (String.eqb_spec s "8") as [->|N8]; [goes_on|].
    destruct (String.eqb_spec s "9") as [->|N9]; [stops | goes_on].
  - split; [|reflexivity]. intros _. left. exists ks. reflexivity.
Qed.

(** X17. A round ends the loop exactly on Ctrl-C at a prompt and on
    choice 9: then the store is the one the round started with and the
    farewell is the last thing printed.  The end of the input does not
    end the loop, at whichever prompt it comes, the choice or the
    second prompt of choices 1, 4 and 5: the round prints the error
    notice last, leaves the store as it was and the loop goes on. *)
Theorem turn_exit (now : string) (keys : list key) (a : TodoApp) :
  (go_on (turn now keys a) = false <->
     (exists ks, keys = Interrupt :: ks) \/
     (exists c ks, keys = Line c :: ks /\ strip c = "9") \/
     (exists c ks, keys = Line c :: Interrupt :: ks /\
                   asks_again (strip c) a = true)) /\
  (go_on (turn now keys a) = false ->
     after (turn now keys a) = a /\
     exists before last,
       shown (turn now keys a) = (before ++ [last])%list /\
       (last = Farewell \/ last = InterruptFarewell)) /\
  (keys = [] \/ (exists c, keys = [Line c] /\ asks_again (strip c) a = true) ->
     go_on (turn now keys a) = true /\ after (turn now keys a) = a /\
     unread (turn now keys a) = [] /\
     exists before, shown (turn now keys a) = (before ++ [ErrorOccurred])%list).
Proof.
  split; [apply turn_go_on|]. split.
  - intros Hstop. split.
    + destruct (turn_cases now keys a) as [E|(o & _ & Hgo)]; [exact E|].
      rewrite Hgo in Hstop. discriminate Hstop.
    + revert Hstop. unfold turn, ask.
      destruct keys as [|[c|] ks]; [discriminate | |].
      2: { intros _. exists [MenuShown], InterruptFarewell.
           split; [reflexivity | right; reflexivity]. }
      destruct (strip c =? "1")%string.
      { destruct ks as [|[d|] ks']; [discriminate | |].
        - destruct (nonempty (strip d)); discriminate.
        - intros _. exists [MenuShown], InterruptFarewell.
          split; [reflexivity | right; reflexivity]. }
      destruct (strip c =? "2")%string; [discriminate|].
      destruct (strip c =? "3")%string; [discriminate|].
      destruct (strip c =? "4")%string.
      { destruct (existsb pending (tasks a)); [|discriminate].
        destruct ks as [|[d|] ks']; [discriminate | discriminate |].
        intros _. eexists _, InterruptFarewell.
        split; [reflexivity | right; reflexivity]. }
      destruct (strip c =? "5")%string.
      { destruct (tasks a); [discriminate|].
        destruct ks as [|[d|] ks']; [discriminate | discriminate |].
        intros _. eexists _, InterruptFarewell.
        split; [reflexivity | right; reflexivity]. }
      destruct (strip c =? "6")%string; [discriminate|].
      destruct (strip c =? "7")%string; [destruct (show_stats a); discriminate|].
      destruct (strip c =? "8")%string; [discriminate|].
      destruct (strip c =? "9")%string; [|discriminate].
      intros _. exists [MenuShown], Farewell.
      split; [reflexivity | left; reflexivity].
  - intros [->|(c & -> & Hc)].
    + repeat split. exists [MenuShown]. reflexivity.
    + revert Hc. unfold asks_again, turn, ask. generalize (strip c). intros s.
      destruct (String.eqb_spec s "1") as [->|_];
        [intros _; repeat split; exists [MenuShown]; reflexivity|].
      destruct (String.eqb_spec s "2") as [->|_];
        [cbv [String.eqb Ascii.eqb Bool.eqb orb andb]; discriminate|].
      destruct (String.eqb_spec s "3") as [->|_];
        [cbv [String.eqb Ascii.eqb Bool.eqb orb andb]; discriminate|].
      destruct (String.eqb_spec s "4") as [->|_].
      { cbv [String.eqb Ascii.eqb Bool.eqb orb andb].
        destruct (existsb pending (tasks a)); [|discriminate].
        intros _. repeat split. eexists. reflexivity. }
      destruct (String.eqb_spec s "5") as [->|_].
      { cbv [String.eqb Ascii.eqb Bool.eqb orb andb].
        destruct (tasks a); [discriminate|].
        intros _. repeat split. eexists. reflexivity. }
      discriminate.
Qed.

Lemma turn_exit_witness :
  let r := turn "t2" [Line "5"] (run [Add "t1" "buy milk"] empty_store) in
  go_on r = true /\ after r = run [Add "t1" "buy milk"] empty_store /\
  unread r = [] /\
  exists before, shown r = (before ++ [ErrorOccurred])%list.
Proof.
  apply (proj2 (proj2 (turn_exit "t2" [Line "5"]
                         (run [Add "t1" "buy milk"] empty_store)))).
  right. exists "5". split; reflexivity.
Defined.

(** X18. The menu asks for an id only when there is something to act
    on: with no pending task choice 4 prints the all-caught-up notice,
    and on an empty store choice 5 prints the empty-list notice; in both
    cases the round reads no further input and leaves the store as it
    was. *)
Theorem turn_skips_prompt (now c : string) (ks : list key) (a : TodoApp) :
  (strip c = "4" -> (forall t, In t (tasks a) -> completed t = true) ->
     turn now (Line c :: ks) a =
       mkRound true a ks [MenuShown; Listed CaughtUpNotice]) /\
  (strip c = "5" -> tasks a = [] ->
     turn now (Line c :: ks) a =
       mkRound true a ks [MenuShown; Listed EmptyListNotice]).
Proof.
  split.
  - intros Hc Hall. unfold turn, ask. rewrite Hc.
    change ("4" =? "1")%string with false. change ("4" =? "2")%string with false.
    change ("4" =? "3")%string with false. change ("4" =? "4")%string with true.
    cbv iota.
    assert (Hp : filter pending (tasks a) = []).
    { induction (tasks a) as [|t l IH]; [reflexivity|]. simpl.
      unfold pending at 1. rewrite (Hall t) by (left; reflexivity). simpl.
      apply IH. intros u Hu. apply Hall. right. exact Hu. }
    assert (He : existsb pending (tasks a) = false).
    { induction (tasks a) as [|t l IH]; [reflexivity|]. simpl.
      unfold pending at 1. rewrite (Hall t) by (left; reflexivity). simpl.
      apply IH.
      - intros u Hu. apply Hall. right. exact Hu.
      - simpl in Hp. unfold pending at 1 in Hp.
        rewrite (Hall t) in Hp by (left; reflexivity). exact Hp. }
    rewrite He. unfold view_pending_only. rewrite Hp. reflexivity.
  - intros Hc Hnil. unfold turn, ask. rewrite Hc.
    change ("5" =? "1")%string with false. change ("5" =? "2")%string with false.
    change ("5" =? "3")%string with false. change ("5" =? "4")%string with false.
    change ("5" =? "5")%string with true. cbv iota.
    unfold view_tasks. rewrite Hnil. reflexivity.
Qed.

(** * The file format: decoding what the encoder wrote *)

(** ** Strings *)

Lemma append_assoc (a b c : string) : (a ++ b) ++ c = a ++ (b ++ c).
Proof.
  induction a as [|x a IH]; simpl; [reflexivity|]. rewrite IH. reflexivity.
Qed.

Lemma append_nil_r (a : string) : a ++ EmptyString = a.
Proof.
  induction a as [|x a IH]; simpl; [reflexivity|]. rewrite IH. reflexivity.
Qed.

Lemma length_append (a b : string) :
  String.length (a ++ b) = (String.length a + String.length b)%nat.
Proof.
  induction a as [|x a IH]; simpl; [reflexivity|]. rewrite IH. reflexivity.
Qed.

(** ** String literals *)

(** Reading back the escape of one character. *)
Lemma scanstring_escape_char (c : ascii) (x : string) :
  scanstring (escape_char c ++ x) =
  ('(str, rest) <- scanstring x ;; Parsed (option_map (String c) str, rest)).
Proof.
  destruct c as [[] [] [] [] [] [] [] []]; reflexivity.
Qed.

Lemma scanstring_escape (s rest : string) :
  scanstring (escape s ++ String dquote rest) = Parsed (Some s, rest).
Proof.
  induction s as [|c s IH]; simpl.
  - reflexivity.
  - rewrite append_assoc, scanstring_escape_char, IH. reflexivity.
Qed.

Lemma scan_once_string (f d : nat) (s rest : string) :
  scan_once (S f) d (encode_basestring s ++ rest) = Parsed (DStr s, rest).
Proof.
  unfold encode_basestring. simpl.
  rewrite append_assoc. simpl. rewrite scanstring_escape. reflexivity.
Qed.

(** ** Integers *)

Import Decimal.

Abbreviation digits_text := DecimalString.NilEmpty.string_of_uint.

Lemma to_uint_no_leading_zero (p : positive) (u : uint) : Pos.to_uint p <> D0 u.
Proof.
  intros E.
  pose proof (DecimalPos.Unsigned.to_of (Pos.to_uint p)) as H.
  rewrite DecimalPos.Unsigned.of_to in H. simpl in H.
  rewrite E in H. unfold unorm in H.
  destruct (nzhead (D0 u)) eqn:Hn; try discriminate.
  - apply (DecimalPos.Unsigned.to_uint_nonzero p). rewrite E. exact H.
  - exact (DecimalFacts.nzhead_nonzero _ _ Hn).
Qed.

Lemma span_digits_text (d : uint) (rest : string) :
  match rest with String c _ => is_digit c = false | EmptyString => True end ->
  span_digits (digits_text d ++ rest) = (digits_text d, rest).
Proof.
  intros Hr. induction d; simpl; try (rewrite IHd; reflexivity).
  destruct rest as [|c r]; simpl; [reflexivity|]. rewrite Hr. reflexivity.
Qed.

Lemma digits_value_acc (d : uint) (p : positive) :
  digits_value (Z.pos p) (digits_text d) = Z.pos (Pos.of_uint_acc d p).
Proof.
  revert p. induction d; intros p; [reflexivity | ..];
    cbn [DecimalString.NilEmpty.string_of_uint digits_value Pos.of_uint_acc];
    rewrite <- IHd; f_equal;
    match goal with
    | |- context [digit_val ?c] =>
        let v := eval vm_compute in (digit_val c) in
        change (digit_val c) with v
    end; lia.
Qed.

Lemma int_end_digit (rest : string) :
  int_end rest = true ->
  match rest with String c _ => is_digit c = false | EmptyString => True end.
Proof.
  destruct rest as [|c r]; simpl; [trivial|].
  destruct (is_digit c); [discriminate | reflexivity].
Qed.

Lemma int_end_not_float (rest : string) :
  int_end rest = true ->
  has_fraction rest || has_exponent (skip_fraction rest) = false.
Proof.
  intros H.
  assert (Hf : has_fraction rest = false).
  { destruct rest as [|c [|c' r]]; simpl in *; try reflexivity.
    destruct (c =? ".")%char; [|reflexivity].
    rewrite andb_false_r in H. discriminate H. }
  assert (Hs : skip_fraction rest = rest).
  { unfold skip_fraction. rewrite Hf. destruct rest; reflexivity. }
  rewrite Hf, Hs. destruct rest as [|c [|c' r]]; simpl in *; try reflexivity.
  destruct (c =? "e")%char, (c =? "E")%char; simpl;
    rewrite ?andb_false_r in H; simpl in H; try discriminate H; reflexivity.
Qed.

Lemma scan_once_number (f d : nat) (c : ascii) (r : string) :
  is_digit c = true ->
  scan_once (S f) d (String c r) = match_number (String c r) /\
  scan_once (S f) d (String "-" (String c r)) = match_number (String "-" (String c r)).
Proof.
  intros H. destruct c as [[] [] [] [] [] [] [] []];
    try discriminate H; split; reflexivity.
Qed.

Lemma match_number_digits (c : ascii) (d : uint) (rest : string) (neg : bool) :
  is_digit c = true -> (c =? "0")%char = false -> int_end rest = true ->
  (String.length (String c (digits_text d)) <=? max_str_digits)%nat = true ->
  match_number ((if neg then String "-" (String c (digits_text d))
                 else String c (digits_text d)) ++ rest) =
  Parsed (DInt (let n := digits_value (digit_val c) (digits_text d) in
                if neg then - n else n), rest).
Proof.
  intros Hc H0 He Hl.
  assert (Hm : (c =? "-")%char = false)
    by (destruct c as [[] [] [] [] [] [] [] []]; try discriminate Hc; reflexivity).
  unfold match_number.
  destruct neg; simpl; rewrite ?Hm; unfold match_integer; rewrite H0, Hc;
    rewrite (span_digits_text d rest (int_end_digit rest He));
    rewrite (int_end_not_float rest He); cbv iota; rewrite Hl; reflexivity.
Qed.

Lemma scan_once_digits (f dp : nat) (d : uint) (rest : string) (neg : bool) :
  d <> Nil -> (forall u, d <> D0 u) -> int_end rest = true ->
  (String.length (digits_text d) <=? max_str_digits)%nat = true ->
  scan_once (S f) dp
    ((if neg then String "-" (digits_text d) else digits_text d) ++ rest) =
  Parsed (DInt (if neg then - Z.of_uint d else Z.of_uint d), rest).
Proof.
  intros Hn Hz He Hl.
  destruct d as [|d|d|d|d|d|d|d|d|d|d];
    [contradiction Hn; reflexivity | exfalso; apply (Hz d); reflexivity | ..];
    cbn [DecimalString.NilEmpty.string_of_uint] in Hl |- *;
    match goal with
    | |- context [String ?c (digits_text d)] =>
        pose proof (scan_once_number f dp c (digits_text d ++ rest) eq_refl) as [Hp Hm];
        pose proof (match_number_digits c d rest neg eq_refl eq_refl He Hl) as Hv
    end;
    destruct neg; cbn [append] in *;
    rewrite ?Hp, ?Hm, Hv; cbv zeta;
    match goal with
    | |- context [digit_val ?c] =>
        let v := eval vm_compute in (digit_val c) in
        change (digit_val c) with v
    end;
    rewrite digits_value_acc; reflexivity.
Qed.

Lemma scan_once_zero (f d : nat) (rest : string) :
  int_end rest = true ->
  scan_once (S f) d (String "0" rest) = Parsed (DInt 0, rest).
Proof.
  intros He. rewrite (proj1 (scan_once_number f d "0" rest eq_refl)).
  unfold match_number, match_integer.
  change ("0" =? "-")%char with false. cbv beta iota zeta.
  change ("0" =? "0")%char with true. cbv beta iota.
  rewrite (int_end_not_float rest He). reflexivity.
Qed.

Lemma string_of_uint_nonnil (d : uint) :
  d <> Nil -> DecimalString.NilZero.string_of_uint d = digits_text d.
Proof.
  destruct d; intros H; [contradiction H|..]; reflexivity.
Qed.

Lemma int_fits_digits (p : positive) :
  int_fits (Z.pos p) = (String.length (digits_text (Pos.to_uint p)) <=? max_str_digits)%nat
  /\ int_fits (Z.neg p) = int_fits (Z.pos p).
Proof.
  unfold int_fits, digit_count, int_repr.
  cbn [Z.abs Z.to_int DecimalString.NilZero.string_of_int].
  rewrite (string_of_uint_nonnil _ (DecimalPos.Unsigned.to_uint_nonnil p)).
  split; reflexivity.
Qed.

Lemma scan_once_int (f d : nat) (z : Z) (rest : string) :
  int_end rest = true -> int_fits z = true ->
  scan_once (S f) d (int_repr z ++ rest) = Parsed (DInt z, rest).
Proof.
  intros He Hz. unfold int_repr.
  destruct z as [|p|p]; cbn [Z.to_int DecimalString.NilZero.string_of_int];
    [exact (scan_once_zero f d rest He) | ..];
    rewrite (string_of_uint_nonnil _ (DecimalPos.Unsigned.to_uint_nonnil p));
    destruct (int_fits_digits p) as [Hp Hn];
    try rewrite Hn in Hz; rewrite Hp in Hz.
  - pose proof (scan_once_digits f d (Pos.to_uint p) rest false
                  (DecimalPos.Unsigned.to_uint_nonnil p)
                  (to_uint_no_leading_zero p) He Hz) as H.
    cbv beta iota in H. unfold Z.of_uint in H.
    rewrite DecimalPos.Unsigned.of_to in H. exact H.
  - pose proof (scan_once_digits f d (Pos.to_uint p) rest true
                  (DecimalPos.Unsigned.to_uint_nonnil p)
                  (to_uint_no_leading_zero p) He Hz) as H.
    cbv beta iota in H. unfold Z.of_uint in H.
    rewrite DecimalPos.Unsigned.of_to in H. exact H.
Qed.

(** ** Whitespace and the first character of a value *)

Lemma skip_ws_spaces (n : nat) (s : string) : skip_ws (spaces n ++ s) = skip_ws s.
Proof. induction n as [|n IH]; simpl; [reflexivity | exact IH]. Qed.

Lemma skip_ws_newline_indent (lvl : nat) (s : string) :
  skip_ws (newline_indent lvl ++ s) = skip_ws s.
Proof. unfold newline_indent. simpl. apply skip_ws_spaces. Qed.

Lemma skip_ws_term_head (s : string) : term_head s = true -> skip_ws s = s.
Proof.
  destruct s as [|c r]; simpl; [reflexivity|].
  destruct (json_ws c); [discriminate | reflexivity].
Qed.

Lemma term_head_int_repr (z : Z) (rest : string) :
  term_head (int_repr z ++ rest) = true.
Proof.
  unfold int_repr. destruct z as [|p|p]; try reflexivity.
  cbn [Z.to_int DecimalString.NilZero.string_of_int].
  rewrite (string_of_uint_nonnil _ (DecimalPos.Unsigned.to_uint_nonnil p)).
  pose proof (DecimalPos.Unsigned.to_uint_nonnil p) as Hn.
  destruct (Pos.to_uint p); [contradiction Hn|..]; reflexivity.
Qed.

Lemma term_head_iterencode (lvl : nat) (v : pyval) (rest : string) :
  term_head (iterencode lvl v ++ rest) = true.
Proof.
  destruct v as [|[]|z|s|[|x xs]|[|kv kvs]]; try reflexivity.
  apply term_head_int_repr.
Qed.

Lemma join_cons (sep x : string) (l : list string) :
  join sep (x :: l) = x ++ join_tail sep l.
Proof.
  revert x. induction l as [|y l IH]; intros x.
  - simpl. symmetry. apply append_nil_r.
  - change (join sep (x :: y :: l)) with (x ++ sep ++ join sep (y :: l)).
    rewrite IH. reflexivity.
Qed.

Lemma iterencode_list (lvl : nat) (x : pyval) (xs : list pyval) :
  iterencode lvl (VList (x :: xs)) =
  String "[" (newline_indent (S lvl)
    ++ (iterencode (S lvl) x
        ++ join_tail (String "," (newline_indent (S lvl)))
                     (map (iterencode (S lvl)) xs))
    ++ newline_indent lvl ++ String "]" EmptyString).
Proof.
  change (iterencode lvl (VList (x :: xs))) with
    ("[" ++ newline_indent (S lvl)
         ++ join ("," ++ newline_indent (S lvl))
                 (iterencode (S lvl) x :: map (iterencode (S lvl)) xs)
         ++ newline_indent lvl ++ "]").
  rewrite join_cons. reflexivity.
Qed.

Lemma iterencode_dict (lvl : nat) (k : string) (x : pyval)
    (kvs : list (string * pyval)) :
  iterencode lvl (VDict ((k, x) :: kvs)) =
  String "{" (newline_indent (S lvl)
    ++ ((encode_basestring k ++ ": " ++ iterencode (S lvl) x)
        ++ join_tail (String "," (newline_indent (S lvl)))
             (map (fun kv => encode_basestring (fst kv) ++ ": "
                             ++ iterencode (S lvl) (snd kv)) kvs))
    ++ newline_indent lvl ++ String "}" EmptyString).
Proof.
  change (iterencode lvl (VDict ((k, x) :: kvs))) with
    ("{" ++ newline_indent (S lvl)
         ++ join ("," ++ newline_indent (S lvl))
                 ((encode_basestring k ++ ": " ++ iterencode (S lvl) x)
                  :: map (fun kv => encode_basestring (fst kv) ++ ": "
                                    ++ iterencode (S lvl) (snd kv)) kvs)
         ++ newline_indent lvl ++ "}").
  rewrite join_cons. reflexivity.
Qed.

(** ** Lists and dicts *)

Lemma parse_array_step (f d : nat) (s : string) :
  parse_array (S f) d s =
  ('(v, r) <- scan_once f d s ;;
   match skip_ws r with
   | String c r' =>
       if (c =? "]")%char then Parsed ([v], r')
       else if (c =? ",")%char then
         '(vs, rest) <- parse_array f d (skip_ws r') ;; Parsed (v :: vs, rest)
       else JSONDecodeError
   | EmptyString => JSONDecodeError
   end).
Proof. reflexivity. Qed.

Lemma scan_once_open_list (f d : nat) (r s : string) :
  skip_ws r = s -> term_head s = true ->
  scan_once (S f) (S d) (String "[" r) =
  ('(items, rest) <- parse_array f d s ;; Parsed (DList items, rest)).
Proof.
  intros Hs Hh. destruct s as [|c r']; [discriminate Hh|].
  simpl in Hh. apply andb_true_iff in Hh. destruct Hh as [Hh _].
  apply andb_true_iff in Hh. destruct Hh as [_ Hh].
  apply negb_true_iff in Hh.
  change (scan_once (S f) (S d) (String "[" r)) with
    (match skip_ws r with
     | String c' r' =>
         if (c' =? "]")%char then Parsed (DList [], r')
         else '(items, rest) <- parse_array f d (String c' r') ;;
              Parsed (DList items, rest)
     | EmptyString => JSONDecodeError
     end).
  rewrite Hs, Hh. reflexivity.
Qed.

Lemma int_end_newline_indent (lvl : nat) (s : string) :
  int_end (newline_indent lvl ++ s) = true.
Proof. reflexivity. Qed.

Lemma parse_array_items (lvl d : nat) (l : list pyval) :
  Forall (decodes_back d) l ->
  forall (x : pyval) (fuel : nat) (rest : string),
    decodes_back d x ->
    (2 * String.length
           (iterencode (S lvl) x
            ++ join_tail (String "," (newline_indent (S lvl)))
                         (map (iterencode (S lvl)) l)
            ++ newline_indent lvl ++ String "]" rest) + 1 < fuel)%nat ->
    parse_array fuel d
      (iterencode (S lvl) x
       ++ join_tail (String "," (newline_indent (S lvl)))
                    (map (iterencode (S lvl)) l)
       ++ newline_indent lvl ++ String "]" rest)
    = Parsed (map as_decoded (x :: l), rest).
Proof.
  induction 1 as [|y l Hy Hl IH]; intros x fuel rest Hx Hf;
    (destruct fuel as [|f]; [lia|]); rewrite parse_array_step.
  - cbn [map join_tail append] in *.
    rewrite Hx; [| lia | apply int_end_newline_indent].
    cbn [parse_bind]. rewrite skip_ws_newline_indent. reflexivity.
  - cbn [map join_tail] in *.
    rewrite Hx; [| lia | reflexivity].
    cbn [parse_bind append].
    change (skip_ws (String "," ?t)) with (String "," t).
    cbv iota. change ("," =? "]")%char with false.
    change ("," =? ",")%char with true. cbv iota.
    rewrite !append_assoc in *.
    rewrite skip_ws_newline_indent.
    rewrite (skip_ws_term_head _ (term_head_iterencode _ _ _)).
    rewrite IH; [reflexivity | exact Hy |].
    rewrite length_append in Hf. cbn [append String.length] in Hf.
    rewrite length_append in Hf. lia.
Qed.

Lemma parse_object_step (f d : nat) (q : ascii) (r : string) :
  parse_object (S f) d (String q r) =
  if (q =? dquote)%char then
    '(key, r1) <- scanstring r ;;
    match skip_ws r1 with
    | String c r2 =>
        if (c =? ":")%char then
          '(v, r3) <- scan_once f d (skip_ws r2) ;;
          match skip_ws r3 with
          | String c' r4 =>
              if (c' =? "}")%char then Parsed (add_pair key v (Some []), r4)
              else if (c' =? ",")%char then
                '(kvs, rest) <- parse_object f d (skip_ws r4) ;;
                Parsed (add_pair key v kvs, rest)
              else JSONDecodeError
          | EmptyString => JSONDecodeError
          end
        else JSONDecodeError
    | EmptyString => JSONDecodeError
    end
  else JSONDecodeError.
Proof. reflexivity. Qed.

Lemma parse_object_key (f d : nat) (k : string) (x : pyval) (lvl : nat) (t : string) :
  parse_object (S f) d ((encode_basestring k ++ ": " ++ iterencode lvl x) ++ t) =
  ('(v, r3) <- scan_once f d (iterencode lvl x ++ t) ;;
   match skip_ws r3 with
   | String c' r4 =>
       if (c' =? "}")%char then Parsed (Some [(k, v)], r4)
       else if (c' =? ",")%char then
         '(kvs, rest) <- parse_object f d (skip_ws r4) ;;
         Parsed (add_pair (Some k) v kvs, rest)
       else JSONDecodeError
   | EmptyString => JSONDecodeError
   end).
Proof.
  unfold encode_basestring. rewrite !append_assoc. cbn [append].
  rewrite !append_assoc. cbn [append].
  rewrite parse_object_step.
  change (dquote =? dquote)%char with true. cbv iota.
  rewrite scanstring_escape. cbn [parse_bind].
  change (skip_ws (String ":" ?u)) with (String ":" u). cbv iota.
  change (":" =? ":")%char with true. cbv iota.
  change (skip_ws (String " " ?u)) with (skip_ws u).
  rewrite (skip_ws_term_head _ (term_head_iterencode _ _ _)).
  reflexivity.
Qed.

Lemma scan_once_open_dict (f d : nat) (r s : string) :
  skip_ws r = s -> term_head s = true ->
  scan_once (S f) (S d) (String "{" r) =
  ('(pairs, rest) <- parse_object f d s ;; Parsed (decoded_dict pairs, rest)).
Proof.
  intros Hs Hh. destruct s as [|c r']; [discriminate Hh|].
  simpl in Hh. apply andb_true_iff in Hh. destruct Hh as [_ Hh].
  apply negb_true_iff in Hh.
  change (scan_once (S f) (S d) (String "{" r)) with
    (match skip_ws r with
     | String c' r' =>
         if (c' =? "}")%char then Parsed (DDict [], r')
         else '(pairs, rest) <- parse_object f d (String c' r') ;;
              Parsed (decoded_dict pairs, rest)
     | EmptyString => JSONDecodeError
     end).
  rewrite Hs, Hh. reflexivity.
Qed.

Ltac len_lia H :=
  repeat first [rewrite length_append in H
               | progress cbn [String.length append] in H];
  repeat first [rewrite length_append
               | progress cbn [String.length append]];
  lia.

Lemma skip_ws_comma (lvl : nat) (x : string) :
  skip_ws (String "," (newline_indent lvl) ++ x) =
  String "," (newline_indent lvl ++ x).
Proof. reflexivity. Qed.

Lemma skip_ws_key (k t1 t2 : string) :
  skip_ws ((encode_basestring k ++ t1) ++ t2) = (encode_basestring k ++ t1) ++ t2.
Proof. reflexivity. Qed.

(** A pair of a dict as the decoder returns it. *)
Abbreviation decoded_pair := (fun kv : string * pyval => (fst kv, as_decoded (snd kv))).

Lemma parse_object_items (lvl d : nat) (l : list (string * pyval)) :
  Forall (fun kv => decodes_back d (snd kv)) l ->
  forall (k : string) (x : pyval) (fuel : nat) (rest : string),
    decodes_back d x ->
    (2 * String.length
           ((encode_basestring k ++ ": " ++ iterencode (S lvl) x)
            ++ join_tail (String "," (newline_indent (S lvl)))
                 (map (fun kv => encode_basestring (fst kv) ++ ": "
                                 ++ iterencode (S lvl) (snd kv)) l)
            ++ newline_indent lvl ++ String "}" rest) + 1 < fuel)%nat ->
    parse_object fuel d
      ((encode_basestring k ++ ": " ++ iterencode (S lvl) x)
       ++ join_tail (String "," (newline_indent (S lvl)))
            (map (fun kv => encode_basestring (fst kv) ++ ": "
                            ++ iterencode (S lvl) (snd kv)) l)
       ++ newline_indent lvl ++ String "}" rest)
    = Parsed (Some (map decoded_pair ((k, x) :: l)), rest).
Proof.
  induction 1 as [|[k' y] l Hy Hl IH]; intros k x fuel rest Hx Hf;
    (destruct fuel as [|f]; [lia|]); rewrite parse_object_key.
  - cbn [map join_tail append] in *.
    rewrite Hx; [| len_lia Hf | apply int_end_newline_indent].
    cbn [parse_bind]. rewrite skip_ws_newline_indent. reflexivity.
  - cbn [map join_tail fst snd] in *.
    rewrite append_assoc in Hf |- *. rewrite append_assoc in Hf |- *.
    rewrite Hx; [| len_lia Hf | reflexivity].
    cbn [parse_bind]. rewrite skip_ws_comma. cbv iota.
    change ("," =? "}")%char with false.
    change ("," =? ",")%char with true. cbv iota.
    rewrite skip_ws_newline_indent, skip_ws_key.
    rewrite IH; [reflexivity | exact Hy | len_lia Hf].
Qed.

Lemma dict_set_fresh {V : Type} (d : list (string * V)) (k : string) (v : V) :
  ~ In k (map fst d) -> dict_set d k v = (d ++ [(k, v)])%list.
Proof.
  induction d as [|[k' v'] d IH]; intros Hk; simpl.
  - reflexivity.
  - destruct (String.eqb_spec k' k) as [E|_].
    + exfalso. apply Hk. left. exact E.
    + rewrite IH; [reflexivity|]. intros H. apply Hk. right. exact H.
Qed.

Lemma fold_dict_set (l acc : list (string * decoded)) :
  NoDup (map fst (acc ++ l)%list) ->
  fold_left (fun d kv => dict_set d (fst kv) (snd kv)) l acc = (acc ++ l)%list.
Proof.
  revert acc. induction l as [|[k v] l IH]; intros acc Hnd; simpl.
  - symmetry. apply List.app_nil_r.
  - rewrite dict_set_fresh.
    + rewrite IH; rewrite <- List.app_assoc; [reflexivity | exact Hnd].
    + rewrite map_app in Hnd. simpl in Hnd.
      apply NoDup_remove_2 in Hnd. intros H. apply Hnd.
      apply in_or_app. left. exact H.
Qed.

Lemma dict_of_pairs_unique (l : list (string * decoded)) :
  NoDup (map fst l) -> dict_of_pairs l = l.
Proof. intros H. unfold dict_of_pairs. rewrite fold_dict_set; [reflexivity | exact H]. Qed.

Lemma keys_decoded (pairs : list (string * pyval)) :
  map fst (map decoded_pair pairs) = map fst pairs.
Proof. rewrite map_map. reflexivity. Qed.

(** The items of a list, and the values of a dict, inherit what holds
    of the whole. *)
Lemma items_decode_back (d : nat) (items : list pyval) :
  Forall (fun v => unique_keys v -> dumpable v = true ->
                   forall d, (nesting v <= d)%nat -> decodes_back d v) items ->
  unique_keys (VList items) -> dumpable (VList items) = true ->
  (nesting (VList items) <= S d)%nat ->
  Forall (decodes_back d) items.
Proof.
  induction 1 as [|x l Hx _ IH]; intros Hu Hw Hn; constructor;
    cbn [unique_keys dumpable nesting fold_right forallb] in Hu, Hw, Hn;
    apply andb_true_iff in Hw; destruct Hu as [Hu1 Hu2], Hw as [Hw1 Hw2].
  - apply Hx; [exact Hu1 | exact Hw1 | lia].
  - apply IH; [exact Hu2 | exact Hw2 | cbn [nesting]; lia].
Qed.

Lemma values_decode_back (d : nat) (pairs : list (string * pyval)) :
  Forall (fun kv => unique_keys (snd kv) -> dumpable (snd kv) = true ->
                    forall d, (nesting (snd kv) <= d)%nat ->
                              decodes_back d (snd kv)) pairs ->
  unique_keys (VDict pairs) -> dumpable (VDict pairs) = true ->
  (nesting (VDict pairs) <= S d)%nat ->
  Forall (fun kv => decodes_back d (snd kv)) pairs.
Proof.
  intros H [_ Hu]. revert Hu.
  induction H as [|kv l Hx _ IH]; intros Hu Hw Hn; constructor;
    cbn [dumpable nesting fold_right forallb] in Hu, Hw, Hn;
    apply andb_true_iff in Hw; destruct Hu as [Hu1 Hu2], Hw as [Hw1 Hw2].
  - apply Hx; [exact Hu1 | exact Hw1 | lia].
  - apply IH; [exact Hu2 | exact Hw2 | cbn [nesting]; lia].
Qed.

(** Decoding the text that the encoder wrote for a value gives the
    value back, when the ints of the value are within the digit limit
    and the decoder is allowed the depth of the value. *)
Theorem iterencode_decodes_back (v : pyval) :
  unique_keys v -> dumpable v = true ->
  forall d, (nesting v <= d)%nat -> decodes_back d v.
Proof.
  induction v as [|b|z|s|items IH|pairs IH] using pyval_nested_ind;
    intros Hu Hw d Hd lvl fuel rest Hf He;
    (destruct fuel as [|f]; [lia|]).
  - reflexivity.
  - destruct b; reflexivity.
  - apply scan_once_int; [exact He | exact Hw].
  - apply scan_once_string.
  - destruct d as [|d]; [cbn [nesting] in Hd; lia|].
    pose proof (items_decode_back d items IH Hu Hw Hd) as Hall.
    destruct items as [|x xs]; [reflexivity|].
    inversion Hall as [|? ? Hx Hxs]; subst.
    rewrite iterencode_list in Hf |- *. cbn [append] in Hf |- *.
    rewrite !append_assoc in Hf |- *. cbn [append] in Hf |- *.
    rewrite (scan_once_open_list f d _ _ (skip_ws_newline_indent _ _)).
    + rewrite skip_ws_term_head by apply term_head_iterencode.
      rewrite (parse_array_items lvl d xs Hxs x f rest Hx); [reflexivity|].
      len_lia Hf.
    + rewrite skip_ws_term_head by apply term_head_iterencode.
      apply term_head_iterencode.
  - destruct d as [|d]; [cbn [nesting] in Hd; lia|].
    pose proof (values_decode_back d pairs IH Hu Hw Hd) as Hall.
    destruct Hu as [Hnd _].
    destruct pairs as [|[k x] kvs]; [reflexivity|].
    inversion Hall as [|? ? Hx Hxs]; subst. cbn [snd] in Hx.
    rewrite iterencode_dict in Hf |- *. cbn [append] in Hf |- *.
    rewrite (append_assoc (newline_indent (S lvl))) in Hf |- *.
    rewrite (append_assoc (_ ++ join_tail _ _)) in Hf |- *.
    rewrite (append_assoc (encode_basestring k ++ _)) in Hf |- *.
    rewrite (append_assoc (newline_indent lvl)) in Hf |- *.
    cbn [append] in Hf |- *.
    rewrite (scan_once_open_dict f d _ _ (skip_ws_newline_indent _ _)).
    + rewrite skip_ws_key.
      assert (Hp := parse_object_items lvl d kvs Hxs k x f rest Hx).
      cbn [append] in Hp. rewrite Hp by len_lia Hf.
      cbn [parse_bind decoded_dict].
      rewrite dict_of_pairs_unique by (rewrite keys_decoded; exact Hnd).
      reflexivity.
    + rewrite skip_ws_key. reflexivity.
Qed.

Theorem json_loads_dumps (v : pyval) :
  unique_keys v -> dumpable v = true -> (nesting v <= nesting_bound)%nat ->
  json_loads (json_dumps v) = Parsed (as_decoded v).
Proof.
  intros Hu Hw Hn. unfold json_loads, json_dumps.
  pose proof (term_head_iterencode 0 v EmptyString) as Hh.
  pose proof (iterencode_decodes_back v Hu Hw nesting_bound Hn 0%nat
                (2 * String.length (iterencode 0 v) + 1)%nat EmptyString) as Hd.
  rewrite append_nil_r in Hh, Hd.
  rewrite (skip_ws_term_head _ Hh), Hd; [reflexivity | lia | reflexivity].
Qed.

(** ** What json.dump writes *)

Lemma write_items_step (w : pyval -> string * bool) (close sep buf tx : string)
    (x : pyval) (l : list pyval) :
  w x = (tx, true) ->
  write_items w close sep buf (x :: l) =
  (buf ++ tx ++ fst (write_items w close sep sep l),
   snd (write_items w close sep sep l)).
Proof.
  intros H. cbn [write_items]. rewrite H.
  destruct (write_items w close sep sep l). reflexivity.
Qed.

Lemma write_pairs_step (w : pyval -> string * bool) (close sep buf tx : string)
    (kv : string * pyval) (l : list (string * pyval)) :
  w (snd kv) = (tx, true) ->
  write_pairs w close sep buf (kv :: l) =
  ((buf ++ encode_basestring (fst kv) ++ ": " ++ tx)
     ++ fst (write_pairs w close sep sep l),
   snd (write_pairs w close sep sep l)).
Proof.
  intros H. cbn [write_pairs]. rewrite H.
  destruct (write_pairs w close sep sep l). reflexivity.
Qed.

Lemma write_items_all (w : pyval -> string * bool) (enc : pyval -> string)
    (close sep : string) (l : list pyval) :
  Forall (fun x => w x = (enc x, true)) l ->
  forall (x : pyval) (buf : string),
    w x = (enc x, true) ->
    write_items w close sep buf (x :: l) =
    (buf ++ enc x ++ join_tail sep (map enc l) ++ close, true).
Proof.
  induction 1 as [|y l Hy _ IH]; intros x buf Hx;
    rewrite (write_items_step _ _ _ _ _ _ _ Hx).
  - reflexivity.
  - rewrite (IH y sep Hy). cbn [map join_tail fst snd].
    rewrite !append_assoc. reflexivity.
Qed.

Lemma write_pairs_all (w : pyval -> string * bool) (enc : pyval -> string)
    (close sep : string) (l : list (string * pyval)) :
  Forall (fun kv => w (snd kv) = (enc (snd kv), true)) l ->
  forall (kv : string * pyval) (buf : string),
    w (snd kv) = (enc (snd kv), true) ->
    write_pairs w close sep buf (kv :: l) =
    (buf ++ (encode_basestring (fst kv) ++ ": " ++ enc (snd kv))
         ++ join_tail sep
              (map (fun kv => encode_basestring (fst kv) ++ ": " ++ enc (snd kv)) l)
         ++ close, true).
Proof.
  induction 1 as [|y l Hy _ IH]; intros x buf Hx;
    rewrite (write_pairs_step _ _ _ _ _ _ _ Hx).
  - cbn [write_pairs map join_tail fst snd append].
    rewrite !append_assoc. reflexivity.
  - rewrite (IH y sep Hy). cbn [map join_tail fst snd].
    rewrite !append_assoc. reflexivity.
Qed.

(** On a value whose ints are within the digit limit json.dump writes
    the whole encoding. *)
Lemma written_dumpable (v : pyval) :
  dumpable v = true -> forall lvl, written lvl v = (iterencode lvl v, true).
Proof.
  induction v as [|b|z|s|items IH|pairs IH] using pyval_nested_ind;
    intros Hw lvl; try reflexivity.
  - cbn [written dumpable] in *. rewrite Hw. reflexivity.
  - assert (Hall : Forall (fun x => written (S lvl) x = (iterencode (S lvl) x, true))
                          items).
    { clear - IH Hw. cbn [dumpable] in Hw.
      induction IH as [|x l Hx _ IHl]; constructor;
        cbn [forallb] in Hw; apply andb_true_iff in Hw; destruct Hw as [H1 H2].
      - apply Hx. exact H1.
      - apply IHl. exact H2. }
    destruct items as [|x xs]; [reflexivity|].
    inversion Hall as [|? ? Hx Hxs]; subst.
    cbn [written]. rewrite (write_items_all _ _ _ _ xs Hxs x _ Hx).
    rewrite iterencode_list. cbn [append]. rewrite !append_assoc. reflexivity.
  - assert (Hall : Forall (fun kv => written (S lvl) (snd kv)
                                     = (iterencode (S lvl) (snd kv), true)) pairs).
    { clear - IH Hw. cbn [dumpable] in Hw.
      induction IH as [|x l Hx _ IHl]; constructor;
        cbn [forallb] in Hw; apply andb_true_iff in Hw; destruct Hw as [H1 H2].
      - apply Hx. exact H1.
      - apply IHl. exact H2. }
    destruct pairs as [|kv kvs]; [reflexivity|].
    inversion Hall as [|? ? Hx Hxs]; subst.
    cbn [written]. rewrite (write_pairs_all _ _ _ _ kvs Hxs kv _ Hx).
    destruct kv as [k x]. rewrite iterencode_dict. cbn [append fst snd].
    rewrite !append_assoc. reflexivity.
Qed.

(** ** The tasks in the file *)

Lemma unique_keys_to_py (t : task) : unique_keys (to_py t).
Proof.
  assert (Hne : forall a b : string, (a =? b)%string = false -> a <> b)
    by (intros a b H; apply String.eqb_neq; exact H).
  destruct t as [i d c ca [ts|]]; cbn.
  - repeat split; repeat constructor; cbn;
      intuition (try discriminate).
  - repeat split; repeat constructor; cbn;
      intuition (try discriminate).
Qed.

Lemma unique_keys_tasks_to_py (ts : list task) : unique_keys (tasks_to_py ts).
Proof.
  unfold tasks_to_py. induction ts as [|t ts IH].
  - exact I.
  - cbn [map]. change (unique_keys (to_py t) /\ unique_keys (VList (map to_py ts))).
    split; [apply unique_keys_to_py | exact IH].
Qed.

Lemma dumpable_to_py (t : task) : dumpable (to_py t) = int_fits (id t).
Proof.
  destruct t as [i d c ca [ts|]]; cbn; rewrite andb_true_r; reflexivity.
Qed.

Lemma dumpable_tasks_to_py (ts : list task) :
  dumpable (tasks_to_py ts) = true <-> writable ts.
Proof.
  unfold tasks_to_py, writable. cbn [dumpable].
  induction ts as [|t ts IH]; cbn [map forallb].
  - split; [constructor | reflexivity].
  - rewrite dumpable_to_py, andb_true_iff, IH. split.
    + intros [H1 H2]. constructor; assumption.
    + intros H. inversion H; subst. split; assumption.
Qed.

Lemma nesting_tasks_to_py (ts : list task) : (nesting (tasks_to_py ts) <= 2)%nat.
Proof.
  unfold tasks_to_py. cbn [nesting]. apply le_n_S.
  induction ts as [|t ts IH]; cbn [map fold_right]; [lia|].
  apply Nat.max_lub; [|exact IH].
  destruct t as [i d c ca [ts'|]]; cbn; lia.
Qed.

Lemma of_py_to_py (t : task) : of_py (as_decoded (to_py t)) = Some t.
Proof. destruct t as [i d c ca [ts|]]; reflexivity. Qed.

Lemma tasks_of_py_to_py (ts : list task) :
  tasks_of_py (as_decoded (tasks_to_py ts)) = Some ts.
Proof.
  unfold tasks_of_py, tasks_to_py. cbn [as_decoded].
  induction ts as [|t ts IH]; cbn [map all_of_py].
  - reflexivity.
  - rewrite of_py_to_py, IH. reflexivity.
Qed.

Lemma rstrip_closing (s : string) :
  rstrip (s ++ String "]" EmptyString) = s ++ String "]" EmptyString.
Proof.
  induction s as [|c s IH]; [reflexivity|].
  cbn [append rstrip]. rewrite IH.
  destruct s; reflexivity.
Qed.

Lemma strip_dumped_tasks (ts : list task) :
  strip (json_dumps (tasks_to_py ts)) = json_dumps (tasks_to_py ts).
Proof.
  unfold json_dumps, tasks_to_py. destruct ts as [|t ts]; [reflexivity|].
  cbn [map]. rewrite iterencode_list.
  unfold strip. cbn [lstrip]. change (isspace "[") with false. cbv iota.
  rewrite <- !append_assoc.
  change (String "[" (?a ++ String "]" EmptyString))
    with (String "[" a ++ String "]" EmptyString).
  apply rstrip_closing.
Qed.

Lemma dumped_tasks_nonempty (ts : list task) :
  nonempty (json_dumps (tasks_to_py ts)) = true.
Proof.
  unfold json_dumps, tasks_to_py. destruct ts as [|t ts]; [reflexivity|].
  cbn [map]. rewrite iterencode_list. reflexivity.
Qed.

(** Loading a file that holds the encoding of a task sequence. *)
Lemma load_dumped_tasks (ts ts0 : list task) :
  writable ts ->
  load_tasks (mkApp ts0 (Some (json_dumps (tasks_to_py ts)))) =
  Loaded (mkApp ts (Some (json_dumps (tasks_to_py ts)))) [].
Proof.
  intros Hw. unfold load_tasks. cbn [file].
  rewrite strip_dumped_tasks, dumped_tasks_nonempty.
  rewrite (json_loads_dumps _ (unique_keys_tasks_to_py ts)).
  - rewrite tasks_of_py_to_py. reflexivity.
  - apply dumpable_tasks_to_py. exact Hw.
  - pose proof (nesting_tasks_to_py ts) as H.
    apply Nat.le_trans with (1 := H). apply Nat.leb_le. reflexivity.
Qed.

(** save_tasks on tasks that json.dump can write. *)
Lemma save_tasks_writable (a : TodoApp) :
  writable (tasks a) ->
  save_tasks a = mkApp (tasks a) (Some (json_dumps (tasks_to_py (tasks a)))) /\
  save_tasks_out a = [].
Proof.
  intros Hw. apply dumpable_tasks_to_py in Hw.
  unfold save_tasks, save_tasks_out, json_dump.
  rewrite (written_dumpable _ Hw 0%nat). split; reflexivity.
Qed.

(** ** A save that fails *)

Lemma write_items_stop (w : pyval -> string * bool) (enc : pyval -> string)
    (close sep tx : string) (x : pyval) (l2 : list pyval) (l1 : list pyval) :
  Forall (fun y => w y = (enc y, true)) l1 ->
  w x = (tx, false) -> is_container x = true ->
  forall buf,
    write_items w close sep buf (l1 ++ x :: l2) =
    (buf ++ concat_text (map (fun y => enc y ++ sep) l1) ++ tx, false).
Proof.
  intros Hall Hx Hc. induction Hall as [|y l1 Hy _ IH]; intros buf.
  - cbn [List.app write_items map concat_text fold_right append].
    rewrite Hx, Hc. reflexivity.
  - cbn [List.app]. rewrite (write_items_step _ _ _ _ _ _ _ Hy), IH.
    cbn [map concat_text fold_right fst snd].
    rewrite !append_assoc. reflexivity.
Qed.

Lemma written_to_py_stop (t : task) :
  int_fits (id t) = false ->
  written 1 (to_py t) = (cut_task ++ " ", false).
Proof.
  intros H. destruct t as [i d c ca ts]. cbn [id] in H.
  unfold to_py. cbn [id List.app written write_pairs fst snd].
  rewrite H. reflexivity.
Qed.

Lemma written_tasks_cut (l1 l2 : list task) (t : task) :
  writable l1 -> int_fits (id t) = false ->
  json_dump (tasks_to_py (l1 ++ t :: l2)) = (cut_short l1, false).
Proof.
  intros Hw Ht. unfold json_dump, tasks_to_py.
  rewrite map_app. cbn [map].
  assert (Hall : Forall (fun y => written 1 y = (iterencode 1 y, true)) (map to_py l1)).
  { induction Hw as [|u l Hu _ IH]; cbn [map]; constructor; [|exact IH].
    apply written_dumpable. rewrite dumpable_to_py. exact Hu. }
  assert (Hst : forall buf close sep,
            write_items (written 1) close sep buf
                        (map to_py l1 ++ to_py t :: map to_py l2)%list =
            (buf ++ concat_text (map (fun y => iterencode 1 y ++ sep) (map to_py l1))
                 ++ cut_task ++ " ", false)).
  { intros buf close sep.
    apply (write_items_stop _ _ _ _ _ _ _ _ Hall (written_to_py_stop t Ht)).
    reflexivity. }
  destruct (map to_py l1 ++ to_py t :: map to_py l2)%list as [|x xs] eqn:E.
  { destruct (map to_py l1); discriminate E. }
  cbn [written]. rewrite Hst. unfold cut_short, cut_body.
  rewrite map_map. rewrite !append_assoc. reflexivity.
Qed.

Lemma not_writable_split (ts : list task) :
  dumpable (tasks_to_py ts) = false ->
  exists l1 t l2, ts = (l1 ++ t :: l2)%list /\ writable l1 /\ int_fits (id t) = false.
Proof.
  unfold tasks_to_py. cbn [dumpable].
  induction ts as [|u ts IH]; cbn [map forallb]; [discriminate|].
  rewrite dumpable_to_py. destruct (int_fits (id u)) eqn:Hu.
  - intros H. destruct (IH H) as (l1 & t & l2 & -> & Hw & Ht).
    exists (u :: l1), t, l2. split; [reflexivity|]. split; [|exact Ht].
    constructor; assumption.
  - intros _. exists [], u, ts. split; [reflexivity|]. split; [constructor | exact Hu].
Qed.

(** save_tasks either writes the whole encoding, or stops at the first
    id beyond the digit limit and reports the error. *)
Lemma save_tasks_cases (a : TodoApp) :
  (writable (tasks a) /\ save_tasks_out a = [] /\
   file (save_tasks a) = Some (json_dumps (tasks_to_py (tasks a)))) \/
  (exists l1 t l2,
     tasks a = (l1 ++ t :: l2)%list /\ writable l1 /\ int_fits (id t) = false /\
     save_tasks_out a = [SaveError] /\
     file (save_tasks a) = Some (cut_short l1)).
Proof.
  destruct (dumpable (tasks_to_py (tasks a))) eqn:E.
  - left. apply dumpable_tasks_to_py in E.
    destruct (save_tasks_writable a E) as [Hs Ho].
    split; [exact E|]. split; [exact Ho|]. rewrite Hs. reflexivity.
  - right. destruct (not_writable_split _ E) as (l1 & t & l2 & Hl & Hw & Ht).
    exists l1, t, l2. split; [exact Hl|]. split; [exact Hw|]. split; [exact Ht|].
    unfold save_tasks_out, save_tasks. rewrite Hl, (written_tasks_cut l1 l2 t Hw Ht).
    split; reflexivity.
Qed.

Lemma term_head_cut_body (l1 : list task) (rest : string) :
  term_head (cut_body l1 ++ rest) = true.
Proof.
  unfold cut_body. destruct l1 as [|t l1]; [reflexivity|].
  cbn [map concat_text fold_right]. rewrite !append_assoc.
  apply term_head_iterencode.
Qed.

Lemma decodes_back_to_py (d : nat) (t : task) :
  int_fits (id t) = true -> decodes_back (S d) (to_py t).
Proof.
  intros H. apply iterencode_decodes_back.
  - apply unique_keys_to_py.
  - rewrite dumpable_to_py. exact H.
  - destruct t as [i ds c ca [ts|]]; cbn; lia.
Qed.

Lemma cut_body_cons (t : task) (l1 : list task) :
  cut_body (t :: l1) =
  iterencode 1 (to_py t) ++ String "," (newline_indent 1 ++ cut_body l1).
Proof.
  unfold cut_body. cbn [map concat_text fold_right].
  rewrite !append_assoc. reflexivity.
Qed.

(** The decoder rejects the items of a list that is cut short. *)
Lemma parse_array_cut (d : nat) (l1 : list task) :
  writable l1 ->
  forall fuel,
    (2 * String.length (cut_body l1) + 1 < fuel)%nat ->
    parse_array fuel (S d) (cut_body l1) = JSONDecodeError.
Proof.
  induction 1 as [|t l1 Ht _ IH]; intros fuel Hf.
  - change (cut_body []) with cut_task in *.
    do 4 (destruct fuel as [|fuel]; [cbn in Hf; lia|]). reflexivity.
  - destruct fuel as [|f]; [lia|]. rewrite parse_array_step.
    rewrite cut_body_cons in Hf |- *.
    rewrite (decodes_back_to_py d t Ht); [| lia | reflexivity].
    cbn [parse_bind].
    change (skip_ws (String "," ?u)) with (String "," u). cbv iota.
    change ("," =? "]")%char with false.
    change ("," =? ",")%char with true. cbv iota.
    rewrite skip_ws_newline_indent.
    pose proof (term_head_cut_body l1 EmptyString) as Hh.
    rewrite append_nil_r in Hh. rewrite (skip_ws_term_head _ Hh).
    rewrite IH; [reflexivity|].
    len_lia Hf.
Qed.

Lemma rstrip_append (s t : string) :
  rstrip t <> EmptyString -> rstrip (s ++ t) = s ++ rstrip t.
Proof.
  intros Ht. induction s as [|x s IH]; [reflexivity|].
  cbn [append rstrip]. rewrite IH.
  destruct (s ++ rstrip t) eqn:E; [|reflexivity].
  destruct s; [|discriminate E]. contradiction Ht.
Qed.

Lemma strip_cut_short (l1 : list task) :
  strip (cut_short l1) = String "[" (newline_indent 1 ++ cut_body l1).
Proof.
  unfold cut_short, strip. cbn [append lstrip].
  change (isspace "[") with false. cbv iota.
  unfold cut_body. set (C := concat_text _).
  rewrite (append_assoc C cut_task " ").
  rewrite <- (append_assoc (newline_indent 1) C).
  rewrite <- (append_assoc (newline_indent 1) C).
  change (String "[" (?x ++ ?y)) with (String "[" x ++ y).
  rewrite rstrip_append; [reflexivity | discriminate].
Qed.

(** Loading a file that was cut short gives the warning and the empty
    list. *)
Lemma load_cut_short (l1 ts0 : list task) :
  writable l1 ->
  load_tasks (mkApp ts0 (Some (cut_short l1))) =
  Loaded (mkApp [] (Some (cut_short l1))) [LoadWarning].
Proof.
  intros Hw. unfold load_tasks. cbn [file].
  pose proof (strip_cut_short l1) as Hs.
  rewrite Hs. cbn [nonempty]. unfold json_loads.
  cbn [skip_ws]. change (json_ws "[") with false. cbv iota.
  change nesting_bound with (S (Nat.pred nesting_bound)).
  rewrite Nat.add_1_r.
  rewrite (scan_once_open_list _ _ _ _ (skip_ws_newline_indent _ _)).
  - pose proof (term_head_cut_body l1 EmptyString) as Hh.
    rewrite append_nil_r in Hh. rewrite (skip_ws_term_head _ Hh).
    change (Nat.pred nesting_bound) with (S (Nat.pred (Nat.pred nesting_bound))).
    rewrite (parse_array_cut _ l1 Hw); [reflexivity|].
    cbn [String.length]. rewrite length_append. lia.
  - pose proof (term_head_cut_body l1 EmptyString) as Hh.
    rewrite append_nil_r in Hh. rewrite (skip_ws_term_head _ Hh). exact Hh.
Qed.

(** ** Saving, then loading *)








(** Write-through persistence: in a reachable store the file, once
    written, is what save_tasks leaves for the tasks in memory. *)
Lemma reachable_file_in_sync (a : TodoApp) :
  reachable a ->
  (tasks a = [] /\ file a = None) \/ file a = file (save_tasks a).
Proof.
  induction 1 as [|o a _ IH]; [left; split; reflexivity|].
  destruct o as [now d|s|now s|]; simpl.
  - unfold add_task. destruct (nonempty (strip d)); simpl; [right; reflexivity | exact IH].
  - unfold remove_task. destruct (py_int s) as [n|]; [|exact IH].
    destruct (find_task n 0 (tasks a)) as [[i t]|]; [|exact IH].
    destruct (pop i (tasks a)) as [[x r]|]; [right; reflexivity | exact IH].
  - unfold mark_completed. destruct (py_int s) as [n|]; [|exact IH].
    destruct (complete_first now n (tasks a)) as [[r u]|]; [right; reflexivity | exact IH].
  - unfold clear_completed.
    destruct (List.length (filter completed (tasks a)) =? 0)%nat;
      [exact IH | right; reflexivity].
Qed.

(** X1. Every reachable store is in step with its file as far as
    json.dump can write the tasks: when save_tasks reports no error on
    the tasks of a reachable store, a TodoApp constructed afresh on the
    file of that store loads exactly those tasks, without a warning;
    when it does report one, the file is cut short and a TodoApp
    constructed afresh on it warns and starts from the empty list. *)
Theorem reachable_store_reloads (a : TodoApp) :
  reachable a ->
  (save_tasks_out a = [] -> init (file a) = Loaded a []) /\
  (save_tasks_out a <> [] ->
     init (file a) = Loaded (mkApp [] (file a)) [LoadWarning]).
Proof.
  intros H. destruct (reachable_file_in_sync a H) as [[Ht Hf]|Hf].
  - destruct a as [ts f]. simpl in *. subst. split; [reflexivity|].
    intros Hne. contradiction Hne. reflexivity.
  - destruct (save_tasks_cases a)
      as [(Hw & Ho & Hs)|(l1 & t & l2 & Hl & Hw & Ht & Ho & Hs)];
      rewrite Hf, Hs, Ho; unfold init.
    + split; [|intros Hne; contradiction Hne; reflexivity].
      intros _. rewrite (load_dumped_tasks _ [] Hw). destruct a as [ts f].
      cbn [file tasks] in *. rewrite Hf, Hs. reflexivity.
    + split; [discriminate|]. intros _. apply load_cut_short. exact Hw.
Qed.

(** ** Calls that save *)






(** ** The decoder's recursion fuel suffices *)

Lemma skip_ws_length (s : string) :
  (String.length (skip_ws s) <= String.length s)%nat.
Proof.
  induction s as [|c s IH]; simpl; [lia|].
  destruct (json_ws c); simpl; lia.
Qed.

Lemma scanstring_consumes (n : nat) (s : string) :
  (String.length s <= n)%nat ->
  scanstring s <> OutOfFuel /\
  forall str r, scanstring s = Parsed (str, r) ->
                (String.length r < String.length s)%nat.
Proof.
  revert s. induction n as [|n IH]; intros s Hn.
  - destruct s; [|simpl in Hn; lia]. simpl. split; [discriminate|]. discriminate.
  - destruct s as [|c r]; [simpl; split; discriminate|].
    simpl in Hn. cbn [scanstring].
    destruct (c =? dquote)%char.
    { split; [discriminate|]. intros str r0 [= _ <-]. simpl. lia. }
    destruct (c =? backslash)%char.
    + destruct r as [|e r1]; [split; discriminate|].
      destruct (e =? "u")%char.
      * destruct r1 as [|h1 [|h2 [|h3 [|h4 r2]]]]; try (split; discriminate).
        destruct (hex_val h1), (hex_val h2), (hex_val h3), (hex_val h4);
          try (split; discriminate).
        destruct (IH r2 ltac:(simpl in Hn; lia)) as [Hf Hl].
        destruct (scanstring r2) as [[str rest]| | | |]; cbn [parse_bind];
          split; try discriminate; try (contradiction Hf; reflexivity).
        intros str0 r0 [= _ <-]. specialize (Hl _ _ eq_refl). simpl. lia.
      * destruct (unescape e); [|split; discriminate].
        destruct (IH r1 ltac:(simpl in Hn; lia)) as [Hf Hl].
        destruct (scanstring r1) as [[str rest]| | | |]; cbn [parse_bind];
          split; try discriminate; try (contradiction Hf; reflexivity).
        intros str0 r0 [= _ <-]. specialize (Hl _ _ eq_refl). simpl. lia.
    + destruct (code c <? 32)%N; [split; discriminate|].
      destruct (IH r ltac:(lia)) as [Hf Hl].
      destruct (scanstring r) as [[str rest]| | | |]; cbn [parse_bind];
        split; try discriminate; try (contradiction Hf; reflexivity).
      intros str0 r0 [= _ <-]. specialize (Hl _ _ eq_refl). simpl. lia.
Qed.

Lemma span_digits_length (s : string) :
  (String.length (snd (span_digits s)) <= String.length s)%nat.
Proof.
  induction s as [|c s IH]; simpl; [lia|].
  destruct (is_digit c); [|simpl; lia].
  destruct (span_digits s) as [d rest]. simpl in *. lia.
Qed.

Lemma match_integer_consumes (s digits rest : string) :
  match_integer s = Some (digits, rest) ->
  (String.length rest < String.length s)%nat.
Proof.
  destruct s as [|c r]; simpl; [discriminate|].
  destruct (c =? "0")%char; [intros [= <- <-]; lia|].
  destruct (is_digit c); [|discriminate].
  pose proof (span_digits_length r) as H.
  destruct (span_digits r) as [d rest']. intros [= <- <-]. simpl in H. lia.
Qed.

Lemma skip_fraction_length (s : string) :
  (String.length (skip_fraction s) <= String.length s)%nat.
Proof.
  unfold skip_fraction. destruct s as [|c r]; [simpl; lia|].
  destruct (has_fraction (String c r)); [|lia].
  pose proof (span_digits_length r). simpl. lia.
Qed.

Lemma skip_exponent_length (s : string) :
  (String.length (skip_exponent s) <= String.length s)%nat.
Proof.
  unfold skip_exponent. destruct s as [|e [|c r]]; try (simpl; lia).
  destruct (has_exponent (String e (String c r))); [|lia].
  pose proof (span_digits_length r). simpl. lia.
Qed.

Lemma match_number_consumes (s : string) :
  match_number s <> OutOfFuel /\
  forall v r, match_number s = Parsed (v, r) ->
              (String.length r < String.length s)%nat.
Proof.
  assert (Hrest : forall digits rest (neg : bool) n,
            (String.length rest < n)%nat ->
            (if has_fraction rest || has_exponent (skip_fraction rest)
             then Parsed (DOther, skip_exponent (skip_fraction rest))
             else if (String.length digits <=? max_str_digits)%nat
                  then Parsed (DInt (if neg then - digits_value 0 digits
                                     else digits_value 0 digits), rest)
                  else ValueError) <> OutOfFuel /\
            forall v r,
              (if has_fraction rest || has_exponent (skip_fraction rest)
               then Parsed (DOther, skip_exponent (skip_fraction rest))
               else if (String.length digits <=? max_str_digits)%nat
                    then Parsed (DInt (if neg then - digits_value 0 digits
                                       else digits_value 0 digits), rest)
                    else ValueError) = Parsed (v, r) ->
              (String.length r < n)%nat).
  { intros digits rest neg n Hn.
    pose proof (skip_fraction_length rest) as H1.
    pose proof (skip_exponent_length (skip_fraction rest)) as H2.
    destruct (has_fraction rest || has_exponent (skip_fraction rest)).
    - split; [discriminate|]. intros v r [= <- <-]. lia.
    - destruct (String.length digits <=? max_str_digits)%nat;
        split; try discriminate. intros v r [= <- <-]. exact Hn. }
  unfold match_number.
  destruct s as [|c r0].
  - simpl. split; discriminate.
  - destruct (c =? "-")%char.
    + destruct (match_integer r0) as [[digits rest]|] eqn:E; [|split; discriminate].
      apply match_integer_consumes in E.
      apply (Hrest digits rest true). simpl. lia.
    + destruct (match_integer (String c r0)) as [[digits rest]|] eqn:E;
        [|split; discriminate].
      apply match_integer_consumes in E.
      apply (Hrest digits rest false). exact E.
Qed.

Lemma drop_length (n : nat) (s : string) :
  (String.length (drop n s) <= String.length s)%nat.
Proof.
  revert s. induction n as [|n IH]; intros s; simpl; [destruct s; lia|].
  destruct s as [|c r]; simpl; [lia|]. specialize (IH r). lia.
Qed.

Lemma scan_once_step (f d : nat) (c : ascii) (r : string) :
  scan_once (S f) d (String c r) =
  if (c =? dquote)%char then
    '(str, rest) <- scanstring r ;; Parsed (decoded_str str, rest)
  else if (c =? "{")%char then
    match d with
    | O => TooDeep
    | S d' =>
        match skip_ws r with
        | String c' r' =>
            if (c' =? "}")%char then Parsed (DDict [], r')
            else
              '(pairs, rest) <- parse_object f d' (String c' r') ;;
              Parsed (decoded_dict pairs, rest)
        | EmptyString => JSONDecodeError
        end
    end
  else if (c =? "[")%char then
    match d with
    | O => TooDeep
    | S d' =>
        match skip_ws r with
        | String c' r' =>
            if (c' =? "]")%char then Parsed (DList [], r')
            else
              '(items, rest) <- parse_array f d' (String c' r') ;;
              Parsed (DList items, rest)
        | EmptyString => JSONDecodeError
        end
    end
  else if startswith "null" (String c r) then Parsed (DNone, drop 4 (String c r))
  else if startswith "true" (String c r) then Parsed (DBool true, drop 4 (String c r))
  else if startswith "false" (String c r) then Parsed (DBool false, drop 5 (String c r))
  else if startswith "NaN" (String c r) then Parsed (DOther, drop 3 (String c r))
  else if startswith "Infinity" (String c r) then Parsed (DOther, drop 8 (String c r))
  else if startswith "-Infinity" (String c r) then Parsed (DOther, drop 9 (String c r))
  else match_number (String c r).
Proof. reflexivity. Qed.

Ltac bind_case H :=
  match goal with
  | |- context [parse_bind ?m _] =>
      let Hf := fresh "Hf" in
      let Hl := fresh "Hl" in
      destruct H as [Hf Hl];
      destruct m as [[? ?]| | | |]; cbn [parse_bind];
      [| split; discriminate | split; discriminate | split; discriminate
       | contradiction Hf; reflexivity];
      specialize (Hl _ _ eq_refl)
  end.

Lemma fuel_adequate (fuel : nat) :
  (forall d s, (2 * String.length s < fuel)%nat ->
     scan_once fuel d s <> OutOfFuel /\
     forall v r, scan_once fuel d s = Parsed (v, r) ->
                 (String.length r < String.length s)%nat) /\
  (forall d s, (2 * String.length s + 1 < fuel)%nat ->
     parse_array fuel d s <> OutOfFuel /\
     forall vs r, parse_array fuel d s = Parsed (vs, r) ->
                  (String.length r < String.length s)%nat) /\
  (forall d s, (2 * String.length s + 1 < fuel)%nat ->
     parse_object fuel d s <> OutOfFuel /\
     forall kvs r, parse_object fuel d s = Parsed (kvs, r) ->
                   (String.length r < String.length s)%nat).
Proof.
  induction fuel as [|f (IHs & IHa & IHo)].
  { repeat split; intros; lia. }
  split; [|split]; intros d s Hs.
  - destruct s as [|c r]; [split; discriminate|].
    rewrite scan_once_step. cbn [String.length] in Hs.
    destruct (c =? dquote)%char.
    { pose proof (scanstring_consumes _ r (le_n _)) as H. bind_case H.
      split; [discriminate|]. intros v r0 [= <- <-]. simpl. lia. }
    destruct (c =? "{")%char.
    { destruct d as [|d']; [split; discriminate|].
      pose proof (skip_ws_length r) as Hw.
      destruct (skip_ws r) as [|c' r'] eqn:E; [split; discriminate|].
      cbn [String.length] in Hw.
      destruct (c' =? "}")%char.
      - split; [discriminate|]. intros v r0 [= <- <-]. simpl. lia.
      - pose proof (IHo d' (String c' r') ltac:(simpl; lia)) as H. bind_case H.
        split; [discriminate|]. intros v r0 [= <- <-]. simpl in *. lia. }
    destruct (c =? "[")%char.
    { destruct d as [|d']; [split; discriminate|].
      pose proof (skip_ws_length r) as Hw.
      destruct (skip_ws r) as [|c' r'] eqn:E; [split; discriminate|].
      cbn [String.length] in Hw.
      destruct (c' =? "]")%char.
      - split; [discriminate|]. intros v r0 [= <- <-]. simpl. lia.
      - pose proof (IHa d' (String c' r') ltac:(simpl; lia)) as H. bind_case H.
        split; [discriminate|]. intros v r0 [= <- <-]. simpl in *. lia. }
    pose proof (drop_length 2 r) as Hd2.
    pose proof (drop_length 3 r) as Hd3. pose proof (drop_length 4 r) as Hd4.
    pose proof (drop_length 7 r) as Hd7. pose proof (drop_length 8 r) as Hd8.
    destruct (startswith "null" (String c r)).
    { split; [discriminate|]. intros v r0 [= <- <-]. simpl. simpl in Hd3. lia. }
    destruct (startswith "true" (String c r)).
    { split; [discriminate|]. intros v r0 [= <- <-]. simpl. simpl in Hd3. lia. }
    destruct (startswith "false" (String c r)).
    { split; [discriminate|]. intros v r0 [= <- <-]. simpl. simpl in Hd4. lia. }
    destruct (startswith "NaN" (String c r)).
    { split; [discriminate|]. intros v r0 [= <- <-]. simpl. simpl in Hd2. lia. }
    destruct (startswith "Infinity" (String c r)).
    { split; [discriminate|]. intros v r0 [= <- <-]. simpl. simpl in Hd7. lia. }
    destruct (startswith "-Infinity" (String c r)).
    { split; [discriminate|]. intros v r0 [= <- <-]. simpl. simpl in Hd8. lia. }
    apply match_number_consumes.
  - rewrite parse_array_step.
    pose proof (IHs d s ltac:(lia)) as H. bind_case H.
    match goal with |- context [skip_ws ?r] =>
      pose proof (skip_ws_length r) as Hw;
      destruct (skip_ws r) as [|c r'] eqn:E; [split; discriminate|]
    end.
    cbn [String.length] in Hw.
    destruct (c =? "]")%char.
    { split; [discriminate|]. intros vs r0 [= <- <-]. lia. }
    destruct (c =? ",")%char; [|split; discriminate].
    pose proof (skip_ws_length r') as Hw'.
    pose proof (IHa d (skip_ws r') ltac:(lia)) as H. bind_case H.
    split; [discriminate|]. intros vs r0 [= <- <-]. lia.
  - destruct s as [|q r]; [split; discriminate|].
    rewrite parse_object_step. cbn [String.length] in Hs.
    destruct (q =? dquote)%char; [|split; discriminate].
    pose proof (scanstring_consumes _ r (le_n _)) as H. bind_case H.
    match goal with |- context [skip_ws ?r] =>
      pose proof (skip_ws_length r) as Hw;
      destruct (skip_ws r) as [|c r2] eqn:E; [split; discriminate|]
    end.
    cbn [String.length] in Hw.
    destruct (c =? ":")%char; [|split; discriminate].
    pose proof (skip_ws_length r2) as Hw2.
    pose proof (IHs d (skip_ws r2) ltac:(lia)) as H. bind_case H.
    match goal with |- context [skip_ws ?r] =>
      pose proof (skip_ws_length r) as Hw3;
      destruct (skip_ws r) as [|c' r4] eqn:E3; [split; discriminate|]
    end.
    cbn [String.length] in Hw3.
    destruct (c' =? "}")%char.
    { split; [discriminate|]. intros kvs r0 [= _ <-]. simpl. lia. }
    destruct (c' =? ",")%char; [|split; discriminate].
    pose proof (skip_ws_length r4) as Hw4.
    pose proof (IHo d (skip_ws r4) ltac:(lia)) as H. bind_case H.
    split; [discriminate|]. intros kvs r0 [= _ <-]. simpl. lia.
Qed.

(** json_loads never runs out of fuel: every text decodes to a value,
    is refused with JSONDecodeError or with the ValueError of the digit
    limit, or is nested deeper than the decoder is followed. *)
Theorem json_loads_fueled (s : string) : json_loads s <> OutOfFuel.
Proof.
  unfold json_loads.
  pose proof (skip_ws_length s) as Hw.
  destruct (proj1 (fuel_adequate (2 * String.length s + 1)) nesting_bound
              (skip_ws s) ltac:(lia)) as [Hf _].
  destruct (scan_once (2 * String.length s + 1) nesting_bound (skip_ws s))
    as [[v rest]| | | |];
    cbn [parse_bind]; try discriminate; [|contradiction Hf; reflexivity].
  destruct (skip_ws rest); discriminate.
Qed.

(** * Further properties that rest on the file format *)

(** ** Ids as the listings print them *)

Lemma int_digits_text (d : Decimal.uint) (acc : Z) :
  int_digits acc (digits_text d) = Some (digits_value acc (digits_text d), EmptyString).
Proof.
  revert acc. induction d; intros acc; [reflexivity|..];
    cbn [DecimalString.NilEmpty.string_of_uint int_digits digits_value];
    match goal with
    | |- context [is_digit ?c] => change (is_digit c) with true
    end; cbv iota; apply IHd.
Qed.

Lemma int_unsigned_text (p : positive) :
  int_unsigned (digits_text (Pos.to_uint p)) = Some (Z.pos p).
Proof.
  pose proof (DecimalPos.Unsigned.of_to p) as Hv.
  pose proof (DecimalPos.Unsigned.to_uint_nonnil p) as Hn.
  pose proof (to_uint_no_leading_zero p) as Hz.
  destruct (Pos.to_uint p) as [|d|d|d|d|d|d|d|d|d|d];
    [contradiction Hn; reflexivity | exfalso; apply (Hz d); reflexivity | ..];
    cbn [DecimalString.NilEmpty.string_of_uint int_unsigned];
    match goal with
    | |- context [is_digit ?c] => change (is_digit c) with true
    end; cbv iota; rewrite int_digits_text; cbn [drop_int_space];
    match goal with
    | |- context [digit_val ?c] =>
        let v := eval vm_compute in (digit_val c) in
        change (digit_val c) with v
    end;
    rewrite digits_value_acc; cbn [Pos.of_uint] in Hv;
    injection Hv as Hv; rewrite Hv; reflexivity.
Qed.

Lemma py_int_int_repr (z : Z) : py_int (int_repr z) = Some z.
Proof.
  unfold int_repr. destruct z as [|p|p];
    cbn [Z.to_int DecimalString.NilZero.string_of_int]; [reflexivity|..];
    rewrite (string_of_uint_nonnil _ (DecimalPos.Unsigned.to_uint_nonnil p)).
  - pose proof (int_unsigned_text p) as H.
    pose proof (DecimalPos.Unsigned.to_uint_nonnil p) as Hn.
    unfold py_int.
    destruct (Pos.to_uint p); [contradiction Hn; reflexivity|..]; exact H.
  - unfold py_int. cbn [drop_int_space].
    change (int_space "-") with false. cbv iota.
    change ("-" =? "-")%char with true. cbv iota.
    rewrite int_unsigned_text. reflexivity.
Qed.

(** X11. The listings print an id as the decimal text of the number.
    That text, typed back, is read by int() as the same number, so for
    every task of the store remove_task and mark_completed called with
    the id as listed return True. *)
Theorem listed_id_selects (now : string) (a : TodoApp) (t : task) :
  In t (tasks a) ->
  py_int (int_repr (id t)) = Some (id t) /\
  ret (remove_task (int_repr (id t)) a) = true /\
  ret (mark_completed now (int_repr (id t)) a) = true.
Proof.
  intros Hin. split; [apply py_int_int_repr|].
  assert (Hex : exists t', In t' (tasks a) /\ id t' = id t)
    by (exists t; split; [exact Hin | reflexivity]).
  destruct (find_task_found _ _ Hex) as (l1 & u & l2 & Hl & Hu & Hl1).
  split.
  - unfold remove_task. rewrite py_int_int_repr, Hl.
    rewrite (find_task_first _ l1 u l2 0 Hu Hl1). simpl.
    rewrite pop_middle. reflexivity.
  - unfold mark_completed. rewrite py_int_int_repr, Hl.
    rewrite (complete_first_match now _ l1 u l2 Hu Hl1). reflexivity.
Qed.

Lemma listed_id_selects_witness :
  let a := run [Add "t1" "a"; Add "t2" "b"; Remove "1"; Add "t3" "c"] empty_store in
  py_int (int_repr 2) = Some 2 /\
  ret (remove_task (int_repr 2) a) = true /\
  ret (mark_completed "t4" (int_repr 2) a) = true.
Proof.
  apply (listed_id_selects "t4"
           (run [Add "t1" "a"; Add "t2" "b"; Remove "1"; Add "t3" "c"] empty_store)
           (mkTask 2 "c" false "t3" None)).
  simpl. tauto.
Defined.

Lemma reachable_store_reloads_witness :
  let a := run [Add "t1" "buy milk"; Add "t2" "pay bills"; Complete "t3" "1";
                Remove "2"] empty_store in
  init (file a) = Loaded a [].
Proof.
  apply (proj1 (reachable_store_reloads
                  (run [Add "t1" "buy milk"; Add "t2" "pay bills"; Complete "t3" "1";
                        Remove "2"] empty_store)
                  (reachable_run _ _ reach_empty))).
  reflexivity.
Defined.
